(** * ServiceConnection: a blocking facade over a DDP connection

    Shallow embedding of [tools/service-connection.js].

    The facade object is a record; every method and every callback that the
    source hands to the transport is a computation in a small state-and-
    exception monad over that record.  A history of the facade is a list of
    such computations, performed one after the other: a method runs until
    it parks or throws, a callback until it returns or throws.  Resolving a
    future may resume the parked fiber at once, inside the callback; since
    every callback makes the resolution its last change to the facade (what
    follows is at most a [throw]), what the resumed fiber does comes after
    the callback in the history.

    A fiber that is parked in [Future.wait] is not part of the state: the
    blocking methods return the future they park on, and [Future_wait] says
    what the parked fiber sees in a given state (still blocked, a value, or
    an exception).

    Environment assumption, as in the DDP client: the transport is
    asynchronous.  A callback handed to the transport is run as a later
    notification, never from inside the transport call that receives it;
    and an [onError], which is bound to the slot of one subscription, is
    run only after that subscription has handed it over. *)

From stdpp Require Import base option list strings.
From Stdlib Require Import ZArith Lia.

Local Open Scope string_scope.

(** ** JavaScript values *)

(** Futures and connection objects are named by numbers. *)
Abbreviation FutId := nat (only parsing).
Abbreviation Handle := nat (only parsing).

(** The closures that the facade hands to the transport.  Only [onError]
    closes over a future of its own ([subFuture]); [onConnected] and the
    disconnect handler read the constructor's [connectFuture] variable. *)
Inductive Callback :=
| CbConnected
| CbDisconnect
| CbResult
| CbReady
| CbError (subFuture : FutId).

(* Nested through [list]; no induction scheme is needed. *)
Local Unset Elimination Schemes.
Inductive value :=
| VUndefined
| VNull
| VBool (b : bool)
| VNum (n : Z)
| VStr (s : string)
| VError (message : string) (errorType : option string)
| VArr (items : list value)
| VRecord (fields : list (string * value))
| VFun (cb : Callback)
| VObj (id : nat).
Local Set Elimination Schemes.

(** [Error(msg)] *)
Definition Error (msg : string) : value := VError msg None.

(** What [if (v)], [!v], [v && _] and [v || _] test. *)
Definition truthy (v : value) : bool :=
  match v with
  | VUndefined | VNull => false
  | VBool b => b
  | VNum n => negb (n =? 0)%Z
  | VStr s => negb (bool_decide (s = EmptyString))
  | _ => true
  end.

Fixpoint field (k : string) (fs : list (string * value)) : value :=
  match fs with
  | [] => VUndefined
  | (k', v) :: fs' => if bool_decide (k' = k) then v else field k fs'
  end.

(** [v.errorType] for a value that is not null or undefined. *)
Definition errorType_of (v : value) : value :=
  match v with
  | VError _ (Some t) => VStr t
  | VRecord fs => field "errorType" fs
  | _ => VUndefined
  end.

(** [error && error.errorType === "DDP.ForcedReconnectError"] *)
Definition isForcedReconnect (error : value) : bool :=
  truthy error &&
  match errorType_of error with
  | VStr t => bool_decide (t = "DDP.ForcedReconnectError")
  | _ => false
  end.

(** [arguments[i]]: a parameter that was not passed is [undefined]. *)
Definition arg (i : nat) (args : list value) : value := nth i args VUndefined.

(** [_.extend({}, base, over)] on objects as association lists. *)
Definition has_key (k : string) (fs : list (string * value)) : bool :=
  existsb (fun p => bool_decide (p.1 = k)) fs.

Definition extend (base over : list (string * value)) : list (string * value) :=
  filter (fun p => has_key p.1 over = false) base ++ over.

(** ** Futures, the facade and the effects it performs *)

Inductive FutureState :=
| Pending
| Returned (v : value)
| Thrown (e : value).

Inductive TransportCall :=
| DDP_connect (endpointUrl : string) (options : list (string * value))
| stream_on_disconnect
| connection_apply (args : list value)
| connection_subscribe (args : list value)
| connection_close.

(** What the facade does to the outside world and to its futures, in the
    order in which it does it. *)
Inductive Effect :=
| NewFuture (f : FutId)
| Resolve (f : FutId) (o : FutureState)
| Transport (c : TransportCall).

Record ServiceConnection := mkSC {
  connection : option Handle;      (* self.connection; None is null/undefined *)
  connected : option bool;         (* self.connected; None is undefined *)
  currentFuture : option FutId;    (* self.currentFuture; None is null/undefined *)
  connectFuture : option FutId;    (* the constructor's [var connectFuture] *)
  futures : list FutureState;      (* the Future objects, by order of creation *)
  trace : list Effect;             (* effects so far, oldest first *)
}.

(** The object as [new] hands it to the constructor. *)
Definition fresh : ServiceConnection :=
  mkSC None None None None [] [].

Definition with_connection (c : option Handle) (s : ServiceConnection) :=
  mkSC c (connected s) (currentFuture s) (connectFuture s) (futures s) (trace s).
Definition with_connected (b : option bool) (s : ServiceConnection) :=
  mkSC (connection s) b (currentFuture s) (connectFuture s) (futures s) (trace s).
Definition with_currentFuture (f : option FutId) (s : ServiceConnection) :=
  mkSC (connection s) (connected s) f (connectFuture s) (futures s) (trace s).
Definition with_connectFuture (f : option FutId) (s : ServiceConnection) :=
  mkSC (connection s) (connected s) (currentFuture s) f (futures s) (trace s).
Definition with_futures (h : list FutureState) (s : ServiceConnection) :=
  mkSC (connection s) (connected s) (currentFuture s) (connectFuture s) h (trace s).
Definition with_trace (t : list Effect) (s : ServiceConnection) :=
  mkSC (connection s) (connected s) (currentFuture s) (connectFuture s) (futures s) t.

(** ** State and exception monad *)

Inductive Result (A : Type) :=
| Ok (a : A)
| Throw (e : value).
Arguments Ok {A} a.
Arguments Throw {A} e.

Definition M (A : Type) : Type := ServiceConnection -> Result A * ServiceConnection.

Definition ret {A} (a : A) : M A := fun s => (Ok a, s).
Definition throw {A} (e : value) : M A := fun s => (Throw e, s).
Definition bind {A B} (m : M A) (k : A -> M B) : M B :=
  fun s => match m s with
           | (Ok a, s') => k a s'
           | (Throw e, s') => (Throw e, s')
           end.
Definition get {A} (proj : ServiceConnection -> A) : M A := fun s => (Ok (proj s), s).
Definition modify (f : ServiceConnection -> ServiceConnection) : M unit :=
  fun s => (Ok tt, f s).

Notation "'let*' x ':=' m 'in' k" := (bind m (fun x => k))
  (at level 10, x name, m at level 100, k at level 200).
Notation "m1 '>>' m2" := (bind m1 (fun _ => m2))
  (at level 100, m2 at level 200, right associativity).

Definition emit (e : Effect) : M unit :=
  modify (fun s => with_trace (trace s ++ [e]) s).

(** ** The Future library *)

(** Modelled from the spec: the WaitSlot.  The source takes it from the
    external [fibers/future] module, which is not part of [src/].  It is a
    single-resolution primitive: created unresolved, resolved once with a
    value or with a failure, and resolving it again is a fatal error. *)
Definition Future_new : M FutId :=
  fun s => let f := length (futures s) in
           (Ok f, with_trace (trace s ++ [NewFuture f])
                    (with_futures (futures s ++ [Pending]) s)).

(** Modelled from the spec: resolving a WaitSlot.  It succeeds on an
    unresolved slot and is a fatal error on one that is already resolved
    (and, in this model, on a number that names no future, which no history
    produces). *)
Definition Future_resolve (f : FutId) (o : FutureState) : M unit :=
  fun s => match futures s !! f with
           | Some Pending =>
               (Ok tt, with_trace (trace s ++ [Resolve f o])
                         (with_futures (<[f := o]> (futures s)) s))
           | _ => (Throw (Error "Future resolved more than once"), s)
           end.

(** [f.return(v)] *)
Definition Future_return (f : FutId) (v : value) : M unit :=
  Future_resolve f (Returned v).

(** [f.throw(e)].  Modelled from the spec: failing a WaitSlot, with the
    two checks that the [throw] of [fibers/future] makes in this order: a
    slot that is already resolved is a fatal error, and so is an empty
    (falsy) error, which leaves the slot unresolved. *)
Definition Future_throw (f : FutId) (e : value) : M unit :=
  fun s => match futures s !! f with
           | Some Pending =>
               if truthy e then Future_resolve f (Thrown e) s
               else (Throw (Error "Must throw non-empty error"), s)
           | _ => (Throw (Error "Future resolved more than once"), s)
           end.

(** [f.resolver()(err, val)] *)
Definition Future_resolver (f : FutId) (err val : value) : M unit :=
  if truthy err then Future_throw f err else Future_return f val.

Definition resolved (s : ServiceConnection) (f : FutId) : bool :=
  match futures s !! f with
  | Some (Returned _) | Some (Thrown _) => true
  | _ => false
  end.

(** [f.isResolved()] *)
Definition Future_isResolved (f : FutId) : M bool :=
  fun s => (Ok (resolved s f), s).

(** What a fiber parked in [f.wait()] sees: it stays suspended until the
    slot is resolved, then returns the value or raises the failure. *)
Inductive Completion :=
| Blocked
| Returns (v : value)
| Raises (e : value).

(** Modelled from the spec: waiting on a WaitSlot. *)
Definition Future_wait (f : FutId) (s : ServiceConnection) : Completion :=
  match futures s !! f with
  | Some (Returned v) => Returns v
  | Some (Thrown e) => Raises e
  | _ => Blocked
  end.

(** ** The callbacks (lines 38-46, 54-75, 95-104, 121-140) *)

Definition TypeError (what : string) : value :=
  VError ("TypeError: " ++ what) None.

(** [options.onConnected] *)
Definition onConnected : M unit :=
  modify (with_connected (Some true)) >>
  let* cur := get currentFuture in
  let* cf := get connectFuture in
  match cur with
  | None => throw (Error "nobody waiting for connection?")
  | Some f =>
      if bool_decide (cf = Some f) then
        modify (with_currentFuture None) >>
        Future_return f VUndefined
      else throw (Error "waiting for something that isn't connection?")
  end.

(** The handler of the stream's ['disconnect'] event. *)
Definition onDisconnect (error : value) : M unit :=
  modify (with_connected (Some false)) >>
  if isForcedReconnect error then
    let* cf := get connectFuture in
    match cf with
    | None => throw (TypeError "connectFuture is undefined")
    | Some c =>
        let* r := Future_isResolved c in
        if r then throw (Error "disconnect before connect?")
        else ret tt
    end
  else
    let* cur := get currentFuture in
    match cur with
    | Some fut =>
        modify (with_currentFuture None) >>
        Future_throw fut (if truthy error then error else Error "DDP disconnected")
    | None =>
        if truthy error then throw error else ret tt
    end.

(** The result callback that [apply] appends to its arguments. *)
Definition onResult (err result : value) : M unit :=
  let* cur := get currentFuture in
  match cur with
  | None => throw (Error "nobody listening for result?")
  | Some fut =>
      modify (with_currentFuture None) >>
      Future_resolver fut err result
  end.

(** [onReady] of [subscribeAndWait]. *)
Definition onReady : M unit :=
  let* cur := get currentFuture in
  match cur with
  | None => throw (Error "nobody listening for subscribe result?")
  | Some fut =>
      modify (with_currentFuture None) >>
      Future_return fut VUndefined
  end.

(** [onError] of the [subscribeAndWait] call that created [subFuture]. *)
Definition onError (subFuture : FutId) (e : value) : M unit :=
  let* cur := get currentFuture in
  (if bool_decide (cur = Some subFuture) then
     modify (with_currentFuture None) >>
     Future_throw subFuture e
   else ret tt) >>
  throw e.

(** The transport runs callback [cb] with the arguments [args]. *)
Definition deliver (cb : Callback) (args : list value) : M unit :=
  match cb with
  | CbConnected => onConnected
  | CbDisconnect => onDisconnect (arg 0 args)
  | CbResult => onResult (arg 0 args) (arg 1 args)
  | CbReady => onReady
  | CbError subFuture => onError subFuture (arg 0 args)
  end.

(** ** The constructor and the methods *)

(** A method call on [self.connection]. *)
Definition on_connection (method : string) (c : TransportCall) : M unit :=
  let* conn := get connection in
  match conn with
  | Some _ => emit (Transport c)
  | None => throw (TypeError ("Cannot read property '" ++ method ++ "' of null"))
  end.

Definition connect_options (options : list (string * value)) :=
  extend options
    [("connectTimeoutMs", VNum 15000); ("retry", VBool false);
     ("onConnected", VFun CbConnected)].

(** Line 49: [self.connection = Package.ddp.DDP.connect(endpointUrl, options)];
    [handle] is the connection object that the transport returns. *)
Definition ctor_connect (endpointUrl : string) (options : list (string * value))
    (handle : Handle) : M unit :=
  emit (Transport (DDP_connect endpointUrl (connect_options options))) >>
  modify (with_connection (Some handle)).

(** Line 53: [var connectFuture = self.currentFuture = new Future] *)
Definition ctor_wait_slot : M FutId :=
  let* f := Future_new in
  modify (with_currentFuture (Some f)) >>
  modify (with_connectFuture (Some f)) >>
  ret f.

(** Line 54: [self.connection._stream.on('disconnect', ...)] *)
Definition ctor_observe : M unit :=
  on_connection "_stream" stream_on_disconnect.

(** The constructor up to [connectFuture.wait()]; it parks on the future
    it returns. *)
Definition new_ServiceConnection (endpointUrl : string)
    (options : list (string * value)) (handle : Handle) : M FutId :=
  ctor_connect endpointUrl options handle >>
  let* f := ctor_wait_slot in
  ctor_observe >>
  ret f.

(** [apply] up to [return self.currentFuture.wait()]; the caller gets what
    [Future_wait] gives for the future returned here. *)
Definition apply (arguments : list value) : M FutId :=
  let* cur := get currentFuture in
  match cur with
  | Some _ => throw (Error "Can't wait on two things at once!")
  | None =>
      let* f := Future_new in
      modify (with_currentFuture (Some f)) >>
      on_connection "apply" (connection_apply (arguments ++ [VFun CbResult])) >>
      let* cur' := get currentFuture in
      match cur' with
      | Some g => ret g
      | None => throw (TypeError "Cannot read property 'wait' of null")
      end
  end.

(** [call]: [name = args.shift(); return self.apply(name, args)] *)
Definition call (arguments : list value) : M FutId :=
  apply [arg 0 arguments; VArr (tail arguments)].

(** [subscribeAndWait] up to [subFuture.wait()]; [sub] is the handle that
    the transport's [subscribe] returns, and the caller gets it back once
    the wait returns (see [subscribed]). *)
Definition subscribeAndWait (arguments : list value) (sub : value)
    : M (FutId * value) :=
  let* cur := get currentFuture in
  match cur with
  | Some _ => throw (Error "Can't wait on two things at once!")
  | None =>
      let* subFuture := Future_new in
      modify (with_currentFuture (Some subFuture)) >>
      on_connection "subscribe"
        (connection_subscribe
           (arguments ++ [VRecord [("onReady", VFun CbReady);
                                   ("onError", VFun (CbError subFuture))]])) >>
      ret (subFuture, sub)
  end.

(** [subFuture.wait(); return sub] *)
Definition subscribed (p : FutId * value) (s : ServiceConnection) : Completion :=
  match Future_wait p.1 s with
  | Returns _ => Returns p.2
  | c => c
  end.

Definition close : M unit :=
  let* conn := get connection in
  match conn with
  | Some _ =>
      emit (Transport connection_close) >>
      modify (with_connection None)
  | None => ret tt
  end.

(** ** Histories *)

(** What can happen to a constructed facade: a fiber calls a method, or the
    transport runs one of the callbacks it was given. *)
Inductive Op :=
| Call (arguments : list value)
| Apply (arguments : list value)
| SubscribeAndWait (arguments : list value) (sub : value)
| Close
| Notify (cb : Callback) (args : list value).

(** Effect [e] hands callback [cb] to the transport: [onConnected] goes
    with the connect options, the disconnect handler with [on], the result
    callback with each [apply], and [onReady] and the [onError] bound to a
    slot with the [subscribe] whose last argument holds them. *)
Definition hands (cb : Callback) (e : Effect) : bool :=
  match e, cb with
  | Transport (DDP_connect _ _), CbConnected => true
  | Transport stream_on_disconnect, CbDisconnect => true
  | Transport (connection_apply _), CbResult => true
  | Transport (connection_subscribe _), CbReady => true
  | Transport (connection_subscribe args), CbError g =>
      match last args with
      | Some (VRecord fs) =>
          match field "onError" fs with
          | VFun (CbError g') => bool_decide (g' = g)
          | _ => false
          end
      | _ => false
      end
  | _, _ => false
  end.

(** The transport has been given callback [cb]. *)
Definition handed (s : ServiceConnection) (cb : Callback) : bool :=
  existsb (hands cb) (trace s).

(** The transport can run callback [cb].  An [onError] is bound to the slot
    of the [subscribeAndWait] call that created it, so it can only run once
    that call has handed it to the transport.  The other callbacks are not
    bound to a slot: each [apply] makes the same result callback and each
    [subscribeAndWait] the same [onReady], and the transport may run them
    at any time. *)
Definition available (s : ServiceConnection) (cb : Callback) : bool :=
  match cb with
  | CbError _ => handed s cb
  | _ => true
  end.

(** The state that an operation leaves behind, whether it returns, parks
    or throws.  A notification for a callback that the transport cannot run
    does not happen. *)
Definition perform (op : Op) (s : ServiceConnection) : ServiceConnection :=
  match op with
  | Call arguments => (call arguments s).2
  | Apply arguments => (apply arguments s).2
  | SubscribeAndWait arguments sub => (subscribeAndWait arguments sub s).2
  | Close => (close s).2
  | Notify cb args => if available s cb then (deliver cb args s).2 else s
  end.

Definition after (ops : list Op) (s : ServiceConnection) : ServiceConnection :=
  foldl (fun s op => perform op s) s ops.

(** The facade when its constructor parks in [connectFuture.wait()]. *)
Definition booted (endpointUrl : string) (options : list (string * value))
    (handle : Handle) : ServiceConnection :=
  (new_ServiceConnection endpointUrl options handle fresh).2.

(** ** Wait slots *)

Definition pending (s : ServiceConnection) (f : FutId) : bool :=
  match futures s !! f with
  | Some Pending => true
  | _ => false
  end.

(** The futures that are created and not yet resolved. *)
Definition outstanding (s : ServiceConnection) : list FutId :=
  filter (fun f => pending s f = true) (seq 0 (length (futures s))).

(** The unresolved futures are exactly the one in [currentFuture]. *)
Definition slot_invariant (s : ServiceConnection) : Prop :=
  forall f, pending s f = true <-> currentFuture s = Some f.

(** The transport passes an error whenever it calls an [onError]. *)
Definition error_supplied (op : Op) : bool :=
  match op with
  | Notify (CbError _) args => truthy (arg 0 args)
  | _ => true
  end.

(** How one method call or callback changes the wait slots: not at all; by
    installing a new slot in an idle facade; by clearing [currentFuture]
    and resolving the slot that was in it; or, when [strands] allows it, by
    clearing [currentFuture] with the slot, which a subscription's
    [onError] is bound to, left unresolved. *)
Inductive transition (strands : bool) (s s' : ServiceConnection) : Prop :=
| t_frame :
    futures s' = futures s ->
    currentFuture s' = currentFuture s ->
    (forall g, handed s' (CbError g) = handed s (CbError g)) ->
    transition strands s s'
| t_install :
    currentFuture s = None ->
    futures s' = (futures s ++ [Pending])%list ->
    currentFuture s' = Some (length (futures s)) ->
    (forall g, handed s (CbError g) = true -> handed s' (CbError g) = true) ->
    (forall g, handed s' (CbError g) = true ->
               handed s (CbError g) = true \/ g = length (futures s)) ->
    transition strands s s'
| t_resolve f o :
    currentFuture s = Some f ->
    o <> Pending ->
    futures s' = <[f := o]> (futures s) ->
    currentFuture s' = None ->
    (forall g, handed s' (CbError g) = handed s (CbError g)) ->
    transition strands s s'
| t_strand f :
    strands = true ->
    currentFuture s = Some f ->
    handed s (CbError f) = true ->
    futures s' = futures s ->
    currentFuture s' = None ->
    (forall g, handed s' (CbError g) = handed s (CbError g)) ->
    transition strands s s'.

(** What every history keeps: the wait in [currentFuture] is unresolved; an
    unresolved future that is not in [currentFuture] is the slot of a
    subscription whose [onError] the transport holds; and such slots come
    after the connect future. *)
Definition wait_invariant (s : ServiceConnection) : Prop :=
  (forall f, currentFuture s = Some f -> futures s !! f = Some Pending) /\
  (forall f, pending s f = true ->
             currentFuture s = Some f \/ handed s (CbError f) = true) /\
  (forall g, handed s (CbError g) = true -> 1 <= g < length (futures s)) /\
  0 < length (futures s).

(** ** Resolution of a wait *)

(** The state after [self.currentFuture = null] and the resolution of
    future [f] with outcome [o]. *)
Definition resolved_with (f : FutId) (o : FutureState) (s : ServiceConnection)
    : ServiceConnection :=
  with_trace (trace s ++ [Resolve f o])
    (with_futures (<[f := o]> (futures s)) (with_currentFuture None s)).

Definition completion (o : FutureState) : Completion :=
  match o with
  | Pending => Blocked
  | Returned v => Returns v
  | Thrown e => Raises e
  end.

Definition resolves (f : FutId) (e : Effect) : bool :=
  match e with
  | Resolve g _ => bool_decide (g = f)
  | _ => false
  end.

(** How many times the history has resolved future [f]. *)
Definition resolutions (f : FutId) (t : list Effect) : nat :=
  length (filter (fun e => resolves f e = true) t).

(** A future is resolved in the heap exactly when the history resolved it,
    and then it did so once. *)
Definition once_invariant (s : ServiceConnection) : Prop :=
  forall f, resolutions f (trace s) = if resolved s f then 1 else 0.

Definition preserves {A} (P : ServiceConnection -> Prop) (m : M A) : Prop :=
  forall s, P s -> P (m s).2.

(** ** Order of effects *)

Definition is_connect_call (e : Effect) : bool :=
  match e with
  | Transport (DDP_connect _ _) => true
  | _ => false
  end.

Definition is_new_future (e : Effect) : bool :=
  match e with
  | NewFuture _ => true
  | _ => false
  end.

(** Where the first effect of a kind sits in a trace. *)
Definition position (kind : Effect -> bool) (t : list Effect) : option nat :=
  fst <$> list_find (fun e => kind e = true) t.

(** C8 as the spec states it: the wait slot is created before the transport
    connect call is issued. *)
Definition slot_before_connect (t : list Effect) : Prop :=
  exists i j,
    position is_new_future t = Some i /\
    position is_connect_call t = Some j /\
    i < j.

(** ** Callbacks and the identity of the pending slot *)

(** A callback claims whatever wait is pending: in every history, when it
    runs while some wait [f] is pending, [f] is resolved afterwards. *)
Definition claims_any_pending_wait (cb : Callback) : Prop :=
  forall endpointUrl options handle ops args f,
    let s := after ops (booted endpointUrl options handle) in
    currentFuture s = Some f -> resolved (deliver cb args s).2 f = true.

(** C10's last sentence as stated: among the callbacks that complete a
    blocking operation, none but [onConnected] looks at which slot is
    pending. *)
Definition only_onConnected_checks_identity : Prop :=
  forall cb, cb <> CbConnected -> cb <> CbDisconnect -> claims_any_pending_wait cb.

(** ** Sample histories and values *)

Definition example_connecting : ServiceConnection :=
  booted "https://example.test" [("headers", VRecord [])] 1.

Definition example_idle : ServiceConnection :=
  after [Notify CbConnected []] example_connecting.

Definition example_calling : ServiceConnection :=
  after [Call [VStr "method"; VNum 1]] example_idle.

Definition example_subscribing : ServiceConnection :=
  after [SubscribeAndWait [VStr "publication"] (VObj 2)] example_idle.

(** A subscription (slot 1) became ready and a call (slot 2) is now parked. *)
Definition example_calling_after_subscription : ServiceConnection :=
  after [Notify CbReady []; Apply [VStr "method"; VArr []]] example_subscribing.

Definition fatal_two_waits : value := Error "Can't wait on two things at once!".

Definition access_denied : value := VError "access denied" (Some "Meteor.Error").

Definition forced_reconnect : value :=
  VError "forced reconnect" (Some "DDP.ForcedReconnectError").

(** A subscription is parked on slot 1 when the transport calls its
    [onError] without an error; the caller then makes a call. *)
Definition example_stranded : ServiceConnection :=
  after [Notify (CbError 1) []; Apply [VStr "method"; VArr []]] example_subscribing.

(** A subscription failed before it was ready; the caller then makes a
    call, which is parked on slot 2. *)
Definition example_calling_after_failed_subscription : ServiceConnection :=
  after [Notify (CbError 1) [access_denied]; Apply [VStr "method"; VArr []]]
    example_subscribing.

(** C3's last part as stated: the slot that [apply] parks on is resolved by
    the result callback or by the disconnect handler, and by nothing else. *)
Definition only_result_or_disconnect_wakes_apply : Prop :=
  forall endpointUrl options handle ops h arguments later op,
    let s := after ops (booted endpointUrl options handle) in
    let f := length (futures s) in
    let s2 := after later (apply arguments s).2 in
    currentFuture s = None ->
    connection s = Some h ->
    resolved s2 f = false ->
    resolved (perform op s2) f = true ->
    exists args, op = Notify CbResult args \/ op = Notify CbDisconnect args.

(** ** Vocabulary of the further properties *)

(** How many effects of a kind a trace holds. *)
Definition occurrences (kind : Effect -> bool) (t : list Effect) : nat :=
  length (filter (fun e => kind e = true) t).

Definition is_observe_call (e : Effect) : bool :=
  match e with
  | Transport stream_on_disconnect => true
  | _ => false
  end.

(** A fiber makes the calls one after the other, and the transport answers
    each with [(null, result)] before the next one is made. *)
Definition answered_calls (calls : list (list value * value)) : list Op :=
  flat_map (fun c => [Apply c.1; Notify CbResult [VNull; c.2]]) calls.

(** The stream reports one disconnect per error. *)
Definition disconnects (errors : list value) : list Op :=
  map (fun e => Notify CbDisconnect [e]) errors.

(** Future [f] is in state [o]. *)
Definition holds (f : FutId) (o : FutureState) (s : ServiceConnection) : Prop :=
  futures s !! f = Some o.

(** While the constructor is parked, [connected] is not [true]; and the
    constructor's own variable always names the first future. *)
Definition connect_invariant (s : ServiceConnection) : Prop :=
  wait_invariant s /\
  connectFuture s = Some 0 /\
  (connected s = Some true -> resolved s 0 = true).

(** The trace holds [n] effects of the kind, and it starts with the effects
    of [t0]. *)
Definition session (kind : Effect -> bool) (n : nat) (t0 : list Effect)
    (s : ServiceConnection) : Prop :=
  occurrences kind (trace s) = n /\ take (length t0) (trace s) = t0.

(** Future [f] has been created. *)
Definition allocated (f : FutId) (s : ServiceConnection) : Prop :=
  f < length (futures s).

(** The error of the Future library for a second resolution. *)
Definition resolved_twice : value := Error "Future resolved more than once".

(** * Proofs *)

Local Open Scope list_scope.

(** ** The model on small inputs *)

Example truthy_values :
  truthy VUndefined = false /\ truthy VNull = false /\
  truthy (VNum 0) = false /\ truthy (VStr EmptyString) = false /\
  truthy (Error "DDP disconnected") = true /\ truthy (VArr []) = true.
Proof. repeat split. Qed.

Example forced_reconnect_tag :
  isForcedReconnect forced_reconnect = true /\
  isForcedReconnect access_denied = false /\
  isForcedReconnect (Error "ECONNRESET") = false /\
  isForcedReconnect VUndefined = false /\
  isForcedReconnect (VStr "DDP.ForcedReconnectError") = false.
Proof. repeat split. Qed.

Example call_is_apply_with_an_array :
  trace example_calling =
    trace example_idle ++
    [NewFuture 1;
     Transport (connection_apply [VStr "method"; VArr [VNum 1]; VFun CbResult])].
Proof. reflexivity. Qed.

Example apply_after_close_throws :
  apply [VStr "method"; VArr []] (close example_idle).2 =
    (Throw (TypeError "Cannot read property 'apply' of null"),
     with_trace (trace (close example_idle).2 ++ [NewFuture 1])
       (with_currentFuture (Some 1)
          (with_futures [Returned VUndefined; Pending] (close example_idle).2))).
Proof. reflexivity. Qed.

(** The overrides of the constructor win over the caller's options. *)
Lemma extend_overrides k base over :
  has_key k over = true -> field k (extend base over) = field k over.
Proof.
  intros Hk. unfold extend. induction base as [|[k' v] base IH]; [done|].
  rewrite filter_cons. case_decide as Hd; [|exact IH].
  simpl in *. case_bool_decide as E; [|exact IH].
  subst k'. congruence.
Qed.

Lemma connect_policy options :
  field "retry" (connect_options options) = VBool false /\
  field "connectTimeoutMs" (connect_options options) = VNum 15000 /\
  field "onConnected" (connect_options options) = VFun CbConnected.
Proof.
  unfold connect_options. rewrite !extend_overrides by done. done.
Qed.

(** ** The slot invariant *)

Ltac run :=
  cbv [bind ret throw get modify emit on_connection
       Future_new Future_resolve Future_return Future_resolver
       Future_isResolved];
  cbn [connection connected currentFuture connectFuture futures trace
       with_connection with_connected with_currentFuture with_connectFuture
       with_futures with_trace fst snd].

Lemma pending_lookup s f : pending s f = true <-> futures s !! f = Some Pending.
Proof.
  unfold pending. destruct (futures s !! f) as [[]|]; split; congruence.
Qed.

Lemma current_is_pending s f :
  slot_invariant s -> currentFuture s = Some f -> futures s !! f = Some Pending.
Proof. intros I H. apply pending_lookup, I, H. Qed.

Lemma idle_none_pending s f :
  slot_invariant s -> currentFuture s = None -> pending s f = false.
Proof.
  intros I H. destruct (pending s f) eqn:P; [|done].
  apply I in P. congruence.
Qed.

Lemma slot_invariant_ext s s' :
  futures s' = futures s -> currentFuture s' = currentFuture s ->
  slot_invariant s -> slot_invariant s'.
Proof.
  intros Hf Hc I f. unfold pending. rewrite Hf, Hc. apply I.
Qed.

(** Installing a newly created future in an idle facade. *)
Lemma slot_invariant_install s s' :
  slot_invariant s -> currentFuture s = None ->
  futures s' = futures s ++ [Pending] ->
  currentFuture s' = Some (length (futures s)) ->
  slot_invariant s'.
Proof.
  intros I Hidle Hf Hc f. unfold pending. rewrite Hf, Hc.
  destruct (decide (f < length (futures s))) as [Hlt|Hge].
  - rewrite lookup_app_l by done.
    pose proof (idle_none_pending s f I Hidle) as P. unfold pending in P.
    split; [intros Q; congruence | intros [= E]; lia].
  - destruct (decide (f = length (futures s))) as [->|Hne].
    + rewrite lookup_app_r by lia. rewrite Nat.sub_diag. done.
    + rewrite lookup_ge_None_2 by (rewrite length_app; simpl; lia).
      split; [done | intros [= E]; lia].
Qed.

(** Clearing [currentFuture] and resolving the future that was in it. *)
Lemma slot_invariant_resolve s s' f o :
  slot_invariant s -> currentFuture s = Some f -> o <> Pending ->
  futures s' = <[f := o]> (futures s) ->
  currentFuture s' = None ->
  slot_invariant s'.
Proof.
  intros I Hcur Ho Hf Hc g. unfold pending. rewrite Hf, Hc.
  pose proof (current_is_pending s f I Hcur) as Pf.
  destruct (decide (g = f)) as [->|Hne].
  - rewrite list_lookup_insert_eq by (eapply lookup_lt_Some; eauto).
    destruct o; done.
  - rewrite list_lookup_insert_ne by done.
    split; [|done]. intros Q.
    assert (pending s g = true) as P by (unfold pending; destruct (futures s !! g) as [[]|]; done).
    apply I in P. congruence.
Qed.

(** ** What the callbacks do to a pending wait *)

Lemma wait_pending f s : pending s f = true -> Future_wait f s = Blocked.
Proof. intros P. apply pending_lookup in P. unfold Future_wait. by rewrite P. Qed.

Lemma wait_blocked_iff f s :
  f < length (futures s) -> (Future_wait f s = Blocked <-> pending s f = true).
Proof.
  intros Hlt. apply lookup_lt_is_Some_2 in Hlt as [o Ho].
  unfold Future_wait, pending. rewrite Ho. destruct o; split; done.
Qed.

Lemma wait_resolved_with f o s :
  f < length (futures s) -> Future_wait f (resolved_with f o s) = completion o.
Proof.
  intros Hlt. unfold Future_wait, resolved_with. simpl.
  rewrite list_lookup_insert_eq by done. by destruct o.
Qed.

Lemma Future_throw_pending s f e :
  futures s !! f = Some Pending -> truthy e = true ->
  Future_throw f e s =
    (Ok tt, with_trace (trace s ++ [Resolve f (Thrown e)])
              (with_futures (<[f := Thrown e]> (futures s)) s)).
Proof.
  intros Hp He. unfold Future_throw, Future_resolve. by rewrite Hp, He.
Qed.

Lemma Future_throw_empty s f e :
  futures s !! f = Some Pending -> truthy e = false ->
  Future_throw f e s = (Throw (Error "Must throw non-empty error"), s).
Proof. intros Hp He. unfold Future_throw. by rewrite Hp, He. Qed.

Lemma truthy_failure error :
  truthy (if truthy error then error else Error "DDP disconnected") = true.
Proof. by destruct (truthy error) eqn:E. Qed.

Lemma onResult_pending s f err result :
  currentFuture s = Some f -> futures s !! f = Some Pending ->
  onResult err result s =
    (Ok tt, resolved_with f (if truthy err then Thrown err else Returned result) s).
Proof.
  intros Hcur Hp. unfold onResult. run. rewrite Hcur.
  destruct (truthy err) eqn:He; run.
  - by rewrite (Future_throw_pending (with_currentFuture None s) f err Hp He).
  - by rewrite Hp.
Qed.

Lemma onResult_idle s err result :
  currentFuture s = None ->
  onResult err result s = (Throw (Error "nobody listening for result?"), s).
Proof. intros Hcur. unfold onResult. run. by rewrite Hcur. Qed.

Lemma onReady_pending s f :
  currentFuture s = Some f -> futures s !! f = Some Pending ->
  onReady s = (Ok tt, resolved_with f (Returned VUndefined) s).
Proof. intros Hcur Hp. unfold onReady. run. rewrite Hcur. run. by rewrite Hp. Qed.

Lemma onReady_idle s :
  currentFuture s = None ->
  onReady s = (Throw (Error "nobody listening for subscribe result?"), s).
Proof. intros Hcur. unfold onReady. run. by rewrite Hcur. Qed.

Lemma onConnected_own s f :
  currentFuture s = Some f -> connectFuture s = Some f ->
  futures s !! f = Some Pending ->
  onConnected s =
    (Ok tt, resolved_with f (Returned VUndefined) (with_connected (Some true) s)).
Proof.
  intros Hcur Hcf Hp. unfold onConnected. run. rewrite Hcur, Hcf.
  rewrite bool_decide_eq_true_2 by done. run. by rewrite Hp.
Qed.

Lemma onConnected_other s f :
  currentFuture s = Some f -> connectFuture s <> Some f ->
  onConnected s =
    (Throw (Error "waiting for something that isn't connection?"),
     with_connected (Some true) s).
Proof.
  intros Hcur Hcf. unfold onConnected. run. rewrite Hcur.
  by rewrite bool_decide_eq_false_2.
Qed.

Lemma onConnected_idle s :
  currentFuture s = None ->
  onConnected s =
    (Throw (Error "nobody waiting for connection?"), with_connected (Some true) s).
Proof. intros Hcur. unfold onConnected. run. by rewrite Hcur. Qed.

Lemma onError_own s f e :
  currentFuture s = Some f -> futures s !! f = Some Pending -> truthy e = true ->
  onError f e s = (Throw e, resolved_with f (Thrown e) s).
Proof.
  intros Hcur Hp He. unfold onError. run.
  rewrite bool_decide_eq_true_2 by done. run.
  by rewrite (Future_throw_pending (with_currentFuture None s) f e Hp He).
Qed.

(** An empty error strands the slot: [currentFuture] is already cleared
    when [subFuture.throw] refuses the error. *)
Lemma onError_own_empty s f e :
  currentFuture s = Some f -> futures s !! f = Some Pending -> truthy e = false ->
  onError f e s =
    (Throw (Error "Must throw non-empty error"), with_currentFuture None s).
Proof.
  intros Hcur Hp He. unfold onError. run.
  rewrite bool_decide_eq_true_2 by done. run.
  by rewrite (Future_throw_empty (with_currentFuture None s) f e Hp He).
Qed.

Lemma onError_late s g e :
  currentFuture s <> Some g -> onError g e s = (Throw e, s).
Proof.
  intros Hcur. unfold onError. run. by rewrite bool_decide_eq_false_2.
Qed.

Lemma onDisconnect_pending s f error :
  isForcedReconnect error = false ->
  currentFuture s = Some f -> futures s !! f = Some Pending ->
  onDisconnect error s =
    (Ok tt,
     resolved_with f (Thrown (if truthy error then error else Error "DDP disconnected"))
       (with_connected (Some false) s)).
Proof.
  intros Hforced Hcur Hp. unfold onDisconnect. run. rewrite Hforced. run.
  rewrite Hcur. run.
  by rewrite (Future_throw_pending
                (with_currentFuture None (with_connected (Some false) s)) f _ Hp
                (truthy_failure error)).
Qed.

Lemma onDisconnect_idle s error :
  isForcedReconnect error = false -> currentFuture s = None ->
  onDisconnect error s =
    (if truthy error then Throw error else Ok tt, with_connected (Some false) s).
Proof.
  intros Hforced Hcur. unfold onDisconnect. run. rewrite Hforced. run.
  rewrite Hcur. by destruct (truthy error).
Qed.

Lemma onDisconnect_forced s c error :
  isForcedReconnect error = true -> connectFuture s = Some c ->
  onDisconnect error s =
    (if resolved s c then Throw (Error "disconnect before connect?") else Ok tt,
     with_connected (Some false) s).
Proof.
  intros Hforced Hcf. unfold onDisconnect. run. rewrite Hforced. run.
  rewrite Hcf. run.
  replace (resolved (with_connected (Some false) s) c) with (resolved s c) by done.
  by destruct (resolved s c).
Qed.

Lemma onDisconnect_forced_state s error :
  isForcedReconnect error = true ->
  (onDisconnect error s).2 = with_connected (Some false) s.
Proof.
  intros Hforced. unfold onDisconnect. run. rewrite Hforced. run.
  destruct (connectFuture s) as [c|]; [|done]. run.
  replace (resolved (with_connected (Some false) s) c) with (resolved s c) by done.
  by destruct (resolved s c).
Qed.

(** ** How the methods and the callbacks move the wait slots *)

Lemma handed_app s s' cb extra :
  trace s' = trace s ++ extra ->
  handed s' cb = handed s cb || existsb (hands cb) extra.
Proof. intros E. unfold handed. by rewrite E, existsb_app. Qed.

Lemma handed_same s s' cb : trace s' = trace s -> handed s' cb = handed s cb.
Proof. intros E. unfold handed. by rewrite E. Qed.

Lemma transition_weaken b s s' : transition false s s' -> transition b s s'.
Proof.
  intros [H1 H2 H3|H1 H2 H3 H4 H5|f o H1 H2 H3 H4 H5|f H0 H1 H2 H3 H4 H5].
  - by apply t_frame.
  - by apply t_install.
  - by eapply t_resolve.
  - done.
Qed.

Lemma resolved_with_transition b s t f o :
  currentFuture s = Some f -> o <> Pending ->
  futures t = futures s -> trace t = trace s ->
  transition b s (resolved_with f o t).
Proof.
  intros Hcur Ho Hf Ht. apply (t_resolve b s _ f o); try done.
  - unfold resolved_with. simpl. by rewrite Hf.
  - intros g. rewrite (handed_app t (resolved_with f o t) _ [Resolve f o]) by done.
    simpl. rewrite orb_false_r. by apply handed_same.
Qed.

Lemma install_transition b s s' extra :
  currentFuture s = None ->
  futures s' = futures s ++ [Pending] ->
  currentFuture s' = Some (length (futures s)) ->
  trace s' = trace s ++ extra ->
  (forall g, existsb (hands (CbError g)) extra = true -> g = length (futures s)) ->
  transition b s s'.
Proof.
  intros Hcur Hf Hc Ht Hx. apply t_install; try done; intros g;
    rewrite (handed_app s s' _ extra Ht).
  - intros ->. done.
  - intros [H|H]%orb_true_iff; [by left|]. right. by apply Hx.
Qed.

Lemma apply_transition b arguments s : transition b s (apply arguments s).2.
Proof.
  unfold apply. run. destruct (currentFuture s) eqn:Hcur; simpl; [by apply t_frame|].
  destruct (connection s); simpl.
  - apply (install_transition b s _
             [NewFuture (length (futures s));
              Transport (connection_apply (arguments ++ [VFun CbResult]))]);
      try done.
    simpl. by rewrite <- app_assoc.
  - by apply (install_transition b s _ [NewFuture (length (futures s))]).
Qed.

Lemma subscribeAndWait_transition b arguments sub s :
  transition b s (subscribeAndWait arguments sub s).2.
Proof.
  unfold subscribeAndWait. run.
  destruct (currentFuture s) eqn:Hcur; simpl; [by apply t_frame|].
  destruct (connection s); simpl.
  - apply (install_transition b s _
             [NewFuture (length (futures s));
              Transport (connection_subscribe
                (arguments ++
                 [VRecord [("onReady", VFun CbReady);
                           ("onError", VFun (CbError (length (futures s))))]]))]);
      try done.
    + simpl. by rewrite <- app_assoc.
    + intros g. simpl. rewrite last_snoc. simpl. rewrite orb_false_r.
      intros H. by apply bool_decide_eq_true in H.
  - by apply (install_transition b s _ [NewFuture (length (futures s))]).
Qed.

Lemma close_transition b s : transition b s (close s).2.
Proof.
  unfold close. run. destruct (connection s); simpl; [|by apply t_frame].
  apply t_frame; try done. intros g.
  rewrite (handed_app s _ _ [Transport connection_close]) by done.
  simpl. by rewrite orb_false_r.
Qed.

Lemma connected_frame b s c : transition b s (with_connected c s).
Proof. by apply t_frame. Qed.

Lemma deliver_transition cb args s :
  (forall f, currentFuture s = Some f -> futures s !! f = Some Pending) ->
  available s cb = true ->
  transition (negb (error_supplied (Notify cb args))) s (deliver cb args s).2.
Proof.
  intros Hcip Hh. destruct cb; cbn [deliver error_supplied negb].
  - destruct (currentFuture s) as [f|] eqn:Hcur.
    + destruct (decide (connectFuture s = Some f)) as [Hcf|Hcf].
      * rewrite (onConnected_own s f Hcur Hcf (Hcip f eq_refl)).
        by apply resolved_with_transition.
      * rewrite (onConnected_other s f Hcur Hcf). apply connected_frame.
    + rewrite (onConnected_idle s Hcur). apply connected_frame.
  - destruct (isForcedReconnect (arg 0 args)) eqn:Hforced.
    + rewrite (onDisconnect_forced_state s _ Hforced). apply connected_frame.
    + destruct (currentFuture s) as [f|] eqn:Hcur.
      * rewrite (onDisconnect_pending s f _ Hforced Hcur (Hcip f eq_refl)).
        by apply resolved_with_transition.
      * rewrite (onDisconnect_idle s _ Hforced Hcur). apply connected_frame.
  - destruct (currentFuture s) as [f|] eqn:Hcur.
    + rewrite (onResult_pending s f _ _ Hcur (Hcip f eq_refl)).
      apply resolved_with_transition; try done. by destruct (truthy (arg 0 args)).
    + rewrite (onResult_idle s _ _ Hcur). by apply t_frame.
  - destruct (currentFuture s) as [f|] eqn:Hcur.
    + rewrite (onReady_pending s f Hcur (Hcip f eq_refl)).
      by apply resolved_with_transition.
    + rewrite (onReady_idle s Hcur). by apply t_frame.
  - destruct (decide (currentFuture s = Some subFuture)) as [Hcur|Hcur].
    + destruct (truthy (arg 0 args)) eqn:He; simpl.
      * rewrite (onError_own s subFuture _ Hcur (Hcip _ Hcur) He).
        by apply resolved_with_transition.
      * rewrite (onError_own_empty s subFuture _ Hcur (Hcip _ Hcur) He).
        by apply (t_strand true s _ subFuture).
    + rewrite (onError_late s subFuture _ Hcur). by apply t_frame.
Qed.

Lemma perform_transition op s :
  (forall f, currentFuture s = Some f -> futures s !! f = Some Pending) ->
  transition (negb (error_supplied op)) s (perform op s).
Proof.
  intros Hcip. destruct op as [a|a|a sub| |cb args]; cbn [perform].
  - apply apply_transition.
  - apply apply_transition.
  - apply subscribeAndWait_transition.
  - apply close_transition.
  - destruct (available s cb) eqn:Hh; [by apply deliver_transition|by apply t_frame].
Qed.

(** ** The invariants of the wait slots *)

Lemma transition_slot_invariant s s' :
  transition false s s' -> slot_invariant s -> slot_invariant s'.
Proof.
  intros [H1 H2 H3|H1 H2 H3 H4 H5|f o H1 H2 H3 H4 H5|f H0 H1 H2 H3 H4 H5] I.
  - by apply (slot_invariant_ext s).
  - by apply (slot_invariant_install s).
  - by apply (slot_invariant_resolve s s' f o).
  - done.
Qed.

Lemma transition_wait_invariant b s s' :
  transition b s s' -> wait_invariant s -> wait_invariant s'.
Proof.
  intros T (Hcip & Hstr & Hrange & Hlen).
  destruct T as [H1 H2 H3|H1 H2 H3 H4 H5|f o H1 H2 H3 H4 H5|f H0 H1 H2 H3 H4 H5].
  - unfold wait_invariant, pending. rewrite H1, H2.
    split; [done|]. split; [|split; [|done]].
    + intros f P. rewrite H3. by apply Hstr.
    + intros g. rewrite H3. apply Hrange.
  - unfold wait_invariant, pending. rewrite H2, H3.
    split; [|split; [|split]].
    + intros f [= <-]. rewrite lookup_app_r by done. by rewrite Nat.sub_diag.
    + intros f P. destruct (decide (f = length (futures s))) as [->|Hne]; [by left|].
      right. apply H4.
      destruct (decide (f < length (futures s))) as [Hlt|Hge].
      * rewrite lookup_app_l in P by done.
        destruct (Hstr f P) as [Hc|Hh]; [congruence|done].
      * rewrite lookup_ge_None_2 in P by (rewrite length_app; simpl; lia). done.
    + intros g Hg. rewrite length_app. simpl.
      destruct (H5 g Hg) as [Hh| ->]; [|lia]. specialize (Hrange g Hh). lia.
    + rewrite length_app. lia.
  - pose proof (Hcip f H1) as Hp.
    unfold wait_invariant, pending. rewrite H3, H4, length_insert.
    split; [done|]. split; [|split; [|done]].
    + intros g P. right. rewrite H5.
      destruct (decide (g = f)) as [->|Hne].
      * rewrite list_lookup_insert_eq in P by (eapply lookup_lt_Some; eauto).
        by destruct o.
      * rewrite list_lookup_insert_ne in P by done.
        destruct (Hstr g P) as [Hc|Hh]; [congruence|done].
    + intros g. rewrite H5. apply Hrange.
  - unfold wait_invariant, pending. rewrite H3, H4.
    split; [done|]. split; [|split; [|done]].
    + intros g P. right. rewrite H5.
      destruct (Hstr g P) as [Hc|Hh]; [|done]. congruence.
    + intros g. rewrite H5. apply Hrange.
Qed.

Lemma booted_invariant endpointUrl options handle :
  slot_invariant (booted endpointUrl options handle).
Proof.
  intros f. unfold pending. simpl.
  destruct f as [|f]; simpl; split; done.
Qed.

Lemma booted_wait_invariant endpointUrl options handle :
  wait_invariant (booted endpointUrl options handle).
Proof.
  split; [|split; [|split]].
  - intros f [= <-]. done.
  - intros f P. left. by apply booted_invariant.
  - intros g H. unfold handed in H. simpl in H. done.
  - simpl. lia.
Qed.

Lemma after_wait_invariant ops s : wait_invariant s -> wait_invariant (after ops s).
Proof.
  revert s. induction ops as [|op ops IH]; intros s I; simpl; [done|].
  apply IH. eapply transition_wait_invariant; [|exact I].
  apply perform_transition, I.
Qed.

Lemma history_wait_invariant endpointUrl options handle ops :
  wait_invariant (after ops (booted endpointUrl options handle)).
Proof. apply after_wait_invariant, booted_wait_invariant. Qed.

(** In a history the wait in [currentFuture] is unresolved. *)
Lemma history_current_pending endpointUrl options handle ops f :
  currentFuture (after ops (booted endpointUrl options handle)) = Some f ->
  futures (after ops (booted endpointUrl options handle)) !! f = Some Pending.
Proof. apply history_wait_invariant. Qed.

Lemma after_invariant ops s :
  Forall (fun op => error_supplied op = true) ops ->
  slot_invariant s -> slot_invariant (after ops s).
Proof.
  revert s. induction ops as [|op ops IH]; intros s Hall I; simpl; [done|].
  apply Forall_cons in Hall as [Hop Hall]. apply IH; [done|].
  apply (transition_slot_invariant s); [|done].
  replace false with (negb (error_supplied op)) by (by rewrite Hop).
  apply perform_transition. intros f. by apply current_is_pending.
Qed.

Lemma history_invariant endpointUrl options handle ops :
  Forall (fun op => error_supplied op = true) ops ->
  slot_invariant (after ops (booted endpointUrl options handle)).
Proof. intros H. by apply after_invariant, booted_invariant. Qed.

Lemma outstanding_le_1 s : slot_invariant s -> length (outstanding s) <= 1.
Proof.
  intros I. unfold outstanding.
  assert (NoDup (filter (fun f => pending s f = true) (seq 0 (length (futures s))))) as ND
    by (apply NoDup_filter, NoDup_seq).
  assert (forall f, f ∈ filter (fun f => pending s f = true) (seq 0 (length (futures s)))
                    -> currentFuture s = Some f) as Hall.
  { intros f Hf. apply list_elem_of_filter in Hf as [P _]. apply I, P. }
  destruct (filter _ _) as [|a [|b l]]; simpl; [lia | lia |].
  exfalso.
  assert (a = b).
  { pose proof (Hall a ltac:(left)) as Ha.
    pose proof (Hall b ltac:(right; left)) as Hb. congruence. }
  subst. apply NoDup_cons in ND as [Hn _]. apply Hn. left.
Qed.

Lemma outstanding_current s :
  slot_invariant s -> outstanding s = option_list (currentFuture s).
Proof.
  intros I. pose proof (outstanding_le_1 s I) as Hlen. unfold outstanding in *.
  destruct (currentFuture s) as [f|] eqn:Hcur; simpl.
  - assert (f ∈ filter (fun f => pending s f = true) (seq 0 (length (futures s)))) as Hin.
    { apply list_elem_of_filter. split; [apply I, Hcur|].
      apply elem_of_seq. split; [lia|]. simpl.
      eapply lookup_lt_Some, current_is_pending; eauto. }
    destruct (filter _ _) as [|a [|b l]]; simpl in *; [|  |lia].
    + apply elem_of_nil in Hin. done.
    + apply list_elem_of_singleton in Hin. congruence.
  - destruct (filter _ _) as [|a l] eqn:E; [done|]. exfalso.
    assert (a ∈ filter (fun f => pending s f = true) (seq 0 (length (futures s)))) as Hin
      by (rewrite E; left).
    apply list_elem_of_filter in Hin as [P _].
    rewrite (idle_none_pending s a I Hcur) in P. done.
Qed.

(** ** Every future is resolved at most once *)

Section Preservation.
Context (P : ServiceConnection -> Prop).

Lemma preserves_ret {A} (a : A) : preserves P (ret a).
Proof. by intros s. Qed.

Lemma preserves_throw {A} e : preserves P (@throw A e).
Proof. by intros s. Qed.

Lemma preserves_get {A} (proj : ServiceConnection -> A) : preserves P (get proj).
Proof. by intros s. Qed.

Lemma preserves_bind {A B} (m : M A) (k : A -> M B) :
  preserves P m -> (forall a, preserves P (k a)) -> preserves P (bind m k).
Proof.
  intros Hm Hk s Hs. unfold bind. specialize (Hm s Hs).
  destruct (m s) as [[a|e] s']; simpl in *; [by apply Hk | done].
Qed.
Lemma preserves_Future_throw f e :
  preserves P (Future_resolve f (Thrown e)) -> preserves P (Future_throw f e).
Proof.
  intros H s Hs. unfold Future_throw.
  destruct (futures s !! f) as [[]|]; try done.
  destruct (truthy e); [by apply H | done].
Qed.
End Preservation.

Lemma resolutions_app f t e :
  resolutions f (t ++ [e]) = resolutions f t + (if resolves f e then 1 else 0).
Proof.
  unfold resolutions. rewrite filter_app, length_app. f_equal.
  rewrite filter_cons, filter_nil. by destruct (resolves f e).
Qed.

Lemma once_modify g :
  (forall s, futures (g s) = futures s) -> (forall s, trace (g s) = trace s) ->
  preserves once_invariant (modify g).
Proof.
  intros Hf Ht s I f. simpl. unfold resolved. rewrite Hf, Ht. apply I.
Qed.

Lemma once_emit c : preserves once_invariant (emit (Transport c)).
Proof.
  intros s I f. simpl. rewrite resolutions_app. simpl.
  rewrite Nat.add_0_r. apply I.
Qed.

Lemma once_new : preserves once_invariant Future_new.
Proof.
  intros s I f. simpl. rewrite resolutions_app. simpl. rewrite Nat.add_0_r.
  rewrite I. unfold resolved. simpl.
  destruct (decide (f < length (futures s))) as [Hlt|Hge].
  - by rewrite lookup_app_l.
  - rewrite (lookup_ge_None_2 (futures s)) by lia.
    destruct (decide (f = length (futures s))) as [->|Hne].
    + rewrite lookup_app_r by lia. by rewrite Nat.sub_diag.
    + by rewrite lookup_ge_None_2 by (rewrite length_app; simpl; lia).
Qed.

Lemma once_resolve f o :
  o <> Pending -> preserves once_invariant (Future_resolve f o).
Proof.
  intros Ho s I g. unfold Future_resolve.
  destruct (futures s !! f) as [[]|] eqn:Hf; simpl; try apply I.
  rewrite resolutions_app. simpl. rewrite I. unfold resolved. simpl.
  case_bool_decide as Hfg.
  - subst g. rewrite Hf.
    rewrite list_lookup_insert_eq by (eapply lookup_lt_Some; eauto).
    by destruct o.
  - rewrite list_lookup_insert_ne by done. lia.
Qed.

Lemma once_isResolved f : preserves once_invariant (Future_isResolved f).
Proof. by intros s. Qed.

Ltac preserved :=
  cbv [onConnected onDisconnect onResult onReady onError deliver
       apply call subscribeAndWait close on_connection
       new_ServiceConnection ctor_connect ctor_wait_slot ctor_observe
       Future_return Future_resolver];
  repeat first
    [ apply preserves_bind; [|intros ?]
    | apply preserves_ret | apply preserves_throw | apply preserves_get
    | apply preserves_Future_throw
    | apply once_emit | apply once_new | apply once_isResolved
    | apply once_modify; reflexivity
    | apply once_resolve; discriminate
    | match goal with
      | |- preserves _ (match ?x with _ => _ end) => destruct x
      | |- preserves _ (if ?x then _ else _) => destruct x
      end ].

Lemma deliver_once cb args : preserves once_invariant (deliver cb args).
Proof. destruct cb; preserved. Qed.

Lemma apply_once arguments : preserves once_invariant (apply arguments).
Proof. preserved. Qed.

Lemma subscribeAndWait_once arguments sub :
  preserves once_invariant (subscribeAndWait arguments sub).
Proof. preserved. Qed.

Lemma close_once : preserves once_invariant close.
Proof. preserved. Qed.

Lemma constructor_once endpointUrl options handle :
  preserves once_invariant (new_ServiceConnection endpointUrl options handle).
Proof. preserved. Qed.

Lemma after_once ops s : once_invariant s -> once_invariant (after ops s).
Proof.
  revert s. induction ops as [|op ops IH]; intros s I; simpl; [done|].
  apply IH. destruct op; simpl.
  - by apply apply_once.
  - by apply apply_once.
  - by apply subscribeAndWait_once.
  - by apply close_once.
  - destruct (available s cb); [by apply deliver_once | done].
Qed.

Lemma history_once endpointUrl options handle ops :
  once_invariant (after ops (booted endpointUrl options handle)).
Proof.
  apply after_once, constructor_once. by intros f.
Qed.

(** Runs through a method or callback, leaving the primitive steps to [tac]. *)
Ltac preserved_by tac :=
  cbv [onConnected onDisconnect onResult onReady onError deliver
       apply call subscribeAndWait close on_connection
       new_ServiceConnection ctor_connect ctor_wait_slot ctor_observe
       Future_return Future_resolver emit];
  repeat first
    [ apply preserves_bind; [|intros ?]
    | apply preserves_ret | apply preserves_throw | apply preserves_get
    | apply preserves_Future_throw
    | tac
    | match goal with
      | |- preserves _ (match ?x with _ => _ end) => destruct x
      | |- preserves _ (if ?x then _ else _) => destruct x
      end ].

Lemma perform_preserves (P : ServiceConnection -> Prop) :
  (forall arguments, preserves P (apply arguments)) ->
  (forall arguments sub, preserves P (subscribeAndWait arguments sub)) ->
  preserves P close ->
  (forall cb args, preserves P (deliver cb args)) ->
  forall ops s, P s -> P (after ops s).
Proof.
  intros Ha Hs Hc Hd ops. induction ops as [|op ops IH]; intros s Hp; simpl; [done|].
  apply IH. destruct op; simpl.
  - by apply Ha.
  - by apply Ha.
  - by apply Hs.
  - by apply Hc.
  - destruct (available s cb); [by apply Hd | done].
Qed.

(** The constructor's variable is never assigned again. *)
Lemma perform_connectFuture op s : connectFuture (perform op s) = connectFuture s.
Proof.
  pose (P := fun t => connectFuture t = connectFuture s).
  assert (forall A (m : M A), preserves P m -> connectFuture (m s).2 = connectFuture s)
    as Hp by (intros A m H; by apply H).
  assert (forall g : ServiceConnection -> ServiceConnection,
            (forall t, connectFuture (g t) = connectFuture t) -> preserves P (modify g))
    as Hm by (intros g Hg t Ht; unfold P in *; simpl; by rewrite Hg).
  assert (preserves P Future_new) as Hn by (by intros t Ht).
  assert (forall f o, preserves P (Future_resolve f o)) as Hr.
  { intros f o t Ht. unfold Future_resolve. by destruct (futures t !! f) as [[]|]. }
  assert (forall f, preserves P (Future_isResolved f)) as Hi by (by intros f t Ht).
  destruct op as [a|a|a sub| |cb args]; cbn [perform].
  - apply Hp. preserved_by ltac:(first [apply Hm; reflexivity | apply Hn | apply Hr | apply Hi]).
  - apply Hp. preserved_by ltac:(first [apply Hm; reflexivity | apply Hn | apply Hr | apply Hi]).
  - apply Hp. preserved_by ltac:(first [apply Hm; reflexivity | apply Hn | apply Hr | apply Hi]).
  - apply Hp. preserved_by ltac:(first [apply Hm; reflexivity | apply Hn | apply Hr | apply Hi]).
  - destruct (available s cb); [|done]. apply Hp.
    destruct cb;
      preserved_by ltac:(first [apply Hm; reflexivity | apply Hn | apply Hr | apply Hi]).
Qed.

Lemma history_connectFuture endpointUrl options handle ops :
  connectFuture (after ops (booted endpointUrl options handle)) = Some 0.
Proof.
  assert (forall s, connectFuture (after ops s) = connectFuture s) as H.
  { induction ops as [|op ops IH]; intros s; simpl; [done|].
    by rewrite IH, perform_connectFuture. }
  by rewrite H.
Qed.

Lemma transition_length b s s' :
  transition b s s' -> length (futures s) <= length (futures s').
Proof.
  intros [H1 H2 H3|H1 H2 H3 H4 H5|f o H1 H2 H3 H4 H5|f H0 H1 H2 H3 H4 H5].
  - by rewrite H1.
  - rewrite H2, length_app. lia.
  - by rewrite H3, length_insert.
  - by rewrite H3.
Qed.

(** A slot that no [subscribe] handed out is never handed out later:
    [subscribeAndWait] binds [onError] to the slot it creates. *)
Lemma transition_not_handed b s s' f :
  transition b s s' ->
  f < length (futures s) -> handed s (CbError f) = false ->
  handed s' (CbError f) = false.
Proof.
  intros [H1 H2 H3|H1 H2 H3 H4 H5|g o H1 H2 H3 H4 H5|g H0 H1 H2 H3 H4 H5] Hlt Hn;
    try (by rewrite ?H3, ?H5).
  destruct (handed s' (CbError f)) eqn:E; [|done].
  destruct (H5 f E) as [H|H]; [congruence|lia].
Qed.

Lemma after_not_handed ops s f :
  wait_invariant s ->
  f < length (futures s) -> handed s (CbError f) = false ->
  handed (after ops s) (CbError f) = false.
Proof.
  revert s. induction ops as [|op ops IH]; intros s I Hlt Hn; simpl; [done|].
  pose proof (perform_transition op s (proj1 I)) as T.
  apply IH.
  - by apply (transition_wait_invariant _ s _ T).
  - pose proof (transition_length _ _ _ T). lia.
  - by apply (transition_not_handed _ s _ f T).
Qed.

Lemma resolved_with_other f g o t :
  resolved t f = false -> resolved (resolved_with g o t) f = true -> f = g.
Proof.
  intros H0 H1. destruct (decide (f = g)) as [|Hne]; [done|]. exfalso.
  unfold resolved, resolved_with in *. simpl in H1.
  rewrite list_lookup_insert_ne in H1 by done. congruence.
Qed.

(** ** Methods and histories *)

Lemma after_app ops1 ops2 s : after (ops1 ++ ops2) s = after ops2 (after ops1 s).
Proof. unfold after. apply foldl_app. Qed.

Lemma wait_resolved_iff f s : Future_wait f s <> Blocked <-> resolved s f = true.
Proof.
  unfold Future_wait, resolved. destruct (futures s !! f) as [[]|]; split; done.
Qed.

Lemma resolved_new_future s f :
  resolved (with_futures (futures s ++ [Pending]) s) f = resolved s f.
Proof.
  unfold resolved. simpl.
  destruct (decide (f < length (futures s))) as [Hlt|Hge].
  - by rewrite lookup_app_l.
  - rewrite (lookup_ge_None_2 (futures s)) by lia.
    destruct (decide (f = length (futures s))) as [->|Hne].
    + rewrite lookup_app_r by lia. by rewrite Nat.sub_diag.
    + by rewrite lookup_ge_None_2 by (rewrite length_app; simpl; lia).
Qed.

Lemma resolved_ext s s' f :
  futures s' = futures s -> resolved s' f = resolved s f.
Proof. intros E. unfold resolved. by rewrite E. Qed.

Lemma apply_resolves_nothing arguments s f :
  resolved (apply arguments s).2 f = resolved s f.
Proof.
  unfold apply. run. destruct (currentFuture s); simpl; [done|].
  destruct (connection s); simpl;
    (etrans; [|apply resolved_new_future]); by apply resolved_ext.
Qed.

Lemma subscribeAndWait_resolves_nothing arguments sub s f :
  resolved (subscribeAndWait arguments sub s).2 f = resolved s f.
Proof.
  unfold subscribeAndWait. run. destruct (currentFuture s); simpl; [done|].
  destruct (connection s); simpl;
    (etrans; [|apply resolved_new_future]); by apply resolved_ext.
Qed.

Lemma close_resolves_nothing s f : resolved (close s).2 f = resolved s f.
Proof.
  unfold close. run. destruct (connection s); simpl; by apply resolved_ext.
Qed.

(** The methods create futures but never resolve one: a future that
    becomes resolved was resolved by a callback. *)
Lemma only_callbacks_resolve op s f :
  resolved s f = false -> resolved (perform op s) f = true ->
  exists cb args, op = Notify cb args.
Proof.
  intros H0 H1. destruct op as [a|a|a sub| |cb args]; [..|by eauto]; exfalso;
    simpl in H1.
  - unfold call in H1. rewrite apply_resolves_nothing in H1. congruence.
  - rewrite apply_resolves_nothing in H1. congruence.
  - rewrite subscribeAndWait_resolves_nothing in H1. congruence.
  - rewrite close_resolves_nothing in H1. congruence.
Qed.

Lemma apply_idle s h arguments :
  currentFuture s = None -> connection s = Some h ->
  apply arguments s =
    (Ok (length (futures s)),
     with_trace (trace s ++ [NewFuture (length (futures s));
                             Transport (connection_apply (arguments ++ [VFun CbResult]))])
       (with_currentFuture (Some (length (futures s)))
          (with_futures (futures s ++ [Pending]) s))).
Proof.
  intros Hcur Hconn. unfold apply. run. rewrite Hcur, Hconn. simpl.
  by rewrite <- app_assoc.
Qed.

(** * The claims *)

(** C1, counterexample: the transport calls the [onError] of a parked
    subscription without an error.  [onError] clears [currentFuture] and
    [subFuture.throw] then refuses the empty error, so slot 1 stays
    unresolved with its caller blocked; the facade looks idle, the next
    [apply] is accepted, and two wait slots are outstanding. *)
Lemma C1_empty_error_strands_a_wait :
  deliver (CbError 1) [] example_subscribing =
    (Throw (Error "Must throw non-empty error"),
     with_currentFuture None example_subscribing) /\
  outstanding example_stranded = [1; 2] /\
  ~ length (outstanding example_stranded) <= 1 /\
  currentFuture example_stranded = Some 2 /\
  Future_wait 1 example_stranded = Blocked /\
  Future_wait 2 example_stranded = Blocked.
Proof. vm_compute. repeat split. lia. Qed.

(** C1, amended: in every history the wait in [currentFuture] is an
    unresolved future; in every history in which the transport passes a
    non-empty error whenever it calls a subscription's [onError], at most
    one wait slot is outstanding, namely the one in [currentFuture]; and
    [apply], [call] and [subscribeAndWait] on a facade whose
    [currentFuture] is set throw the fatal error and leave the facade
    exactly as it was: nothing is added to the trace, so no transport call
    is issued, and the pending wait is not touched. *)
Theorem C1_single_wait_slot :
  (forall endpointUrl options handle ops,
     let s := after ops (booted endpointUrl options handle) in
     (forall f, currentFuture s = Some f -> pending s f = true) /\
     (Forall (fun op => error_supplied op = true) ops ->
      outstanding s = option_list (currentFuture s) /\
      length (outstanding s) <= 1)) /\
  (forall s f arguments sub,
     currentFuture s = Some f ->
     apply arguments s = (Throw fatal_two_waits, s) /\
     call arguments s = (Throw fatal_two_waits, s) /\
     subscribeAndWait arguments sub s = (Throw fatal_two_waits, s)).
Proof.
  split.
  - intros u o h ops s. split.
    + intros f Hcur. apply pending_lookup.
      by apply (history_current_pending u o h ops).
    + intros Hall.
      pose proof (history_invariant u o h ops Hall) as I. fold s in I.
      split; [apply outstanding_current, I | apply outstanding_le_1, I].
  - intros s f arguments sub Hcur.
    unfold call, apply, subscribeAndWait. run. by rewrite Hcur.
Qed.

Lemma C1_single_wait_slot_witness :
  length (outstanding example_calling) <= 1 /\
  currentFuture example_calling = Some 1 /\
  apply [VStr "other"; VArr []] example_calling = (Throw fatal_two_waits, example_calling) /\
  subscribeAndWait [VStr "publication"] (VObj 2) example_connecting
    = (Throw fatal_two_waits, example_connecting).
Proof.
  split; [|split; [reflexivity|split]].
  - apply (proj1 C1_single_wait_slot "https://example.test" [("headers", VRecord [])] 1
             [Notify CbConnected []; Call [VStr "method"; VNum 1]]).
    repeat constructor.
  - apply (proj2 C1_single_wait_slot example_calling 1 [VStr "other"; VArr []] VNull).
    reflexivity.
  - apply (proj2 C1_single_wait_slot example_connecting 0 [] (VObj 2)).
    reflexivity.
Defined.

(** C2: a disconnect event whose error is not a forced reconnect (the
    error may be absent) and that arrives while a wait [f] is pending,
    whichever operation created it, returns normally, clears
    [currentFuture] and resolves [f] with failure: the error if it is
    truthy, else [Error("DDP disconnected")].  The fiber parked on [f] was
    blocked and now raises that failure; the history resolved [f] zero
    times before and once after; no other future changes. *)
Theorem C2_disconnect_fails_pending_wait endpointUrl options handle ops f args :
  let s := after ops (booted endpointUrl options handle) in
  let error := arg 0 args in
  let failure := if truthy error then error else Error "DDP disconnected" in
  let s' := (deliver CbDisconnect args s).2 in
  currentFuture s = Some f ->
  isForcedReconnect error = false ->
  Future_wait f s = Blocked /\
  resolutions f (trace s) = 0 /\
  (deliver CbDisconnect args s).1 = Ok tt /\
  currentFuture s' = None /\
  connected s' = Some false /\
  Future_wait f s' = Raises failure /\
  (forall sub, subscribed (f, sub) s' = Raises failure) /\
  trace s' = trace s ++ [Resolve f (Thrown failure)] /\
  resolutions f (trace s') = 1 /\
  (forall g, g <> f -> futures s' !! g = futures s !! g).
Proof.
  intros s error failure s' Hcur Hforced.
  pose proof (history_once endpointUrl options handle ops f) as O. fold s in O.
  pose proof (history_current_pending endpointUrl options handle ops f Hcur) as Hp.
  fold s in Hp.
  assert (resolved s f = false) as Hr by (unfold resolved; by rewrite Hp).
  rewrite Hr in O.
  split; [apply wait_pending, pending_lookup, Hp|].
  split; [done|].
  subst s'. simpl. fold error.
  rewrite (onDisconnect_pending s f error Hforced Hcur Hp). fold failure. simpl.
  split; [done|]. split; [done|]. split; [done|].
  assert (Future_wait f (resolved_with f (Thrown failure) (with_connected (Some false) s))
          = Raises failure) as Hw
    by (apply (wait_resolved_with f (Thrown failure) (with_connected (Some false) s));
        eapply lookup_lt_Some; eauto).
  split; [exact Hw|].
  split; [intros sub; unfold subscribed; cbn [fst snd]; by rewrite Hw|].
  split; [done|].
  split.
  - rewrite resolutions_app, O. simpl. by rewrite bool_decide_eq_true_2.
  - intros g Hg. by rewrite list_lookup_insert_ne.
Qed.

Lemma C2_disconnect_fails_pending_wait_witness :
  let s' := (deliver CbDisconnect [] example_calling).2 in
  currentFuture example_calling = Some 1 /\
  currentFuture s' = None /\
  Future_wait 1 s' = Raises (Error "DDP disconnected").
Proof.
  destruct (C2_disconnect_fails_pending_wait
              "https://example.test" [("headers", VRecord [])] 1
              [Notify CbConnected []; Call [VStr "method"; VNum 1]] 1 []
              eq_refl eq_refl)
    as (_ & _ & _ & Hcur & _ & Hwait & _).
  split; [reflexivity|]. split; [exact Hcur | exact Hwait].
Defined.

(** C3, counterexample: a call is parked on slot 2 and the transport holds
    the [onReady] of an earlier subscription.  [onReady] does not check
    which wait is pending: when it fires it resolves slot 2, and [apply]
    returns [undefined] although neither the result callback nor the
    disconnect handler has run. *)
Lemma C3_onReady_wakes_apply :
  ~ only_result_or_disconnect_wakes_apply /\
  currentFuture example_calling_after_failed_subscription = Some 2 /\
  Future_wait 2 example_calling_after_failed_subscription = Blocked /\
  handed example_calling_after_failed_subscription CbReady = true /\
  Future_wait 2 (perform (Notify CbReady []) example_calling_after_failed_subscription)
    = Returns VUndefined.
Proof.
  split; [|vm_compute; repeat split].
  intros H.
  destruct (H "https://example.test" [("headers", VRecord [])] 1
              [Notify CbConnected [];
               SubscribeAndWait [VStr "publication"] (VObj 2);
               Notify (CbError 1) [access_denied]]
              1 [VStr "method"; VArr []] [] (Notify CbReady [])
              eq_refl eq_refl eq_refl eq_refl) as (args & [E|E]); discriminate.
Qed.

(** C3, amended: on an idle facade with an open connection, [apply]
    creates a slot [f], hands the transport its arguments followed by the
    result callback, and parks on [f]; [call(name, a...)] is
    [apply(name, [a...])].  After any further history that leaves [f]
    unresolved the caller is still blocked, and when the transport then
    runs the result callback with [(err, result)] the callback returns
    normally and the caller resumes: it raises [err] if [err] is truthy
    (the [(E, null)] case) and returns [result] otherwise (the [(null, V)]
    case).  In no state does the caller resume unless [f] has been
    resolved, and what resolves [f] is the result callback, the disconnect
    handler, or the [onReady] of a subscription, which resolves whatever
    wait is pending. *)
Theorem C3_apply_returns_callback_outcome
    endpointUrl options handle ops h arguments later err result :
  let s := after ops (booted endpointUrl options handle) in
  let f := length (futures s) in
  let s1 := (apply arguments s).2 in
  let s2 := after later s1 in
  let s3 := (deliver CbResult [err; result] s2).2 in
  currentFuture s = None ->
  connection s = Some h ->
  (forall name rest, call (name :: rest) s = apply [name; VArr rest] s) /\
  (apply arguments s).1 = Ok f /\
  trace s1 = trace s ++ [NewFuture f;
                         Transport (connection_apply (arguments ++ [VFun CbResult]))] /\
  currentFuture s1 = Some f /\
  Future_wait f s1 = Blocked /\
  (Future_wait f s2 <> Blocked <-> resolved s2 f = true) /\
  (forall op, resolved s2 f = false -> resolved (perform op s2) f = true ->
              exists args, op = Notify CbResult args \/
                           op = Notify CbDisconnect args \/
                           op = Notify CbReady args) /\
  (pending s2 f = true ->
   Future_wait f s2 = Blocked /\
   (deliver CbResult [err; result] s2).1 = Ok tt /\
   Future_wait f s3 = if truthy err then Raises err else Returns result).
Proof.
  intros s f s1 s2 s3 Hcur Hconn. split; [done|].
  pose proof (history_wait_invariant endpointUrl options handle ops) as Is. fold s in Is.
  assert (s2 = after (ops ++ [Apply arguments] ++ later)
                 (booted endpointUrl options handle)) as Hs2
    by (by rewrite !after_app).
  assert (wait_invariant s2) as I by (rewrite Hs2; apply history_wait_invariant).
  assert (connectFuture s2 = Some 0) as Hcf by (rewrite Hs2; apply history_connectFuture).
  assert (1 <= f) as Hf1 by (destruct Is as (_ & _ & _ & Hl); subst f; lia).
  assert (handed s2 (CbError f) = false) as Hnh.
  { subst s2. apply after_not_handed.
    - subst s1. change ((apply arguments s).2) with (perform (Apply arguments) s).
      eapply transition_wait_invariant; [|exact Is].
      apply perform_transition, Is.
    - subst s1. rewrite (apply_idle s h arguments Hcur Hconn). simpl.
      rewrite length_app. simpl. lia.
    - subst s1. rewrite (apply_idle s h arguments Hcur Hconn).
      rewrite (handed_app s _ _
                 [NewFuture f;
                  Transport (connection_apply (arguments ++ [VFun CbResult]))])
        by done.
      simpl. rewrite orb_false_r.
      destruct (handed s (CbError f)) eqn:E; [|done].
      destruct Is as (_ & _ & Hrange & _). specialize (Hrange f E). subst f. lia. }
  clear Hs2. subst s3 s2 s1. rewrite (apply_idle s h arguments Hcur Hconn) in *.
  cbn [fst snd] in *. split; [done|]. split; [done|]. split; [done|].
  split.
  { unfold Future_wait. simpl. rewrite lookup_app_r by done.
    by rewrite Nat.sub_diag. }
  split; [apply wait_resolved_iff|].
  set (s2 := after later _) in *.
  split.
  { intros op H0 H1.
    destruct (only_callbacks_resolve op s2 f H0 H1) as (cb & args & ->).
    cbn [perform] in H1. destruct (available s2 cb) eqn:Hh; [|congruence].
    destruct cb; [| by eauto | by eauto | by eauto |]; exfalso; cbn [deliver] in H1.
    - (* onConnected resolves the connect future only *)
      destruct (currentFuture s2) as [c|] eqn:Hc.
      + destruct (decide (c = 0)) as [->|Hne].
        * rewrite (onConnected_own s2 0 Hc Hcf (proj1 I 0 Hc)) in H1.
          cbn [snd] in H1.
          assert (f = 0) by (by apply (resolved_with_other f 0 _ _ H0 H1)). lia.
        * rewrite (onConnected_other s2 c Hc) in H1 by congruence.
          cbn [snd] in H1. unfold resolved in *. simpl in H1. congruence.
      + rewrite (onConnected_idle s2 Hc) in H1.
        cbn [snd] in H1. unfold resolved in *. simpl in H1. congruence.
    - (* an [onError] resolves the slot of its own subscription only *)
      destruct (decide (currentFuture s2 = Some subFuture)) as [Hc|Hc].
      + destruct (truthy (arg 0 args)) eqn:He.
        * rewrite (onError_own s2 subFuture _ Hc (proj1 I _ Hc) He) in H1.
          cbn [snd] in H1.
          assert (f = subFuture) by (by apply (resolved_with_other f _ _ _ H0 H1)).
          cbn [available] in Hh. congruence.
        * rewrite (onError_own_empty s2 subFuture _ Hc (proj1 I _ Hc) He) in H1.
          cbn [snd] in H1. unfold resolved in *. simpl in H1. congruence.
      + rewrite (onError_late s2 subFuture _ Hc) in H1. cbn [snd] in H1. congruence. }
  intros Hp.
  split; [by apply wait_pending|].
  assert (currentFuture s2 = Some f) as Hc.
  { destruct (proj1 (proj2 I) f Hp) as [Hc|Hh]; [done|congruence]. }
  apply pending_lookup in Hp.
  cbn [deliver].
  change (arg 0 [err; result]) with err. change (arg 1 [err; result]) with result.
  rewrite (onResult_pending _ f err result Hc Hp). cbn [fst snd].
  split; [done|].
  rewrite wait_resolved_with by (eapply lookup_lt_Some; eauto).
  by destruct (truthy err).
Qed.

Lemma C3_apply_returns_callback_outcome_witness :
  let s1 := (call [VStr "method"; VNum 1] example_idle).2 in
  let s3 := (deliver CbResult [VNull; VStr "value"] s1).2 in
  (call [VStr "method"; VNum 1] example_idle).1 = Ok 1 /\
  Future_wait 1 s1 = Blocked /\
  Future_wait 1 s3 = Returns (VStr "value").
Proof.
  destruct (C3_apply_returns_callback_outcome
              "https://example.test" [("headers", VRecord [])] 1
              [Notify CbConnected []] 1 [VStr "method"; VArr [VNum 1]] []
              VNull (VStr "value") eq_refl eq_refl)
    as (_ & Hrun & _ & _ & Hblocked & _ & _ & Hcb).
  destruct (Hcb eq_refl) as (_ & _ & Hwait).
  vm_compute in Hrun, Hblocked, Hwait. vm_compute.
  split; [exact Hrun|]. split; [exact Hblocked | exact Hwait].
Defined.

(** C4 (the code departs from it): [subscribeAndWait] is parked on its own
    slot 1 and the transport runs its [onError] with an error.  The slot is
    failed with the error, so the blocked caller raises it, and the
    callback then goes on to [throw e] as well: the statement after the
    [if], which the source's comment reserves for a late error, is reached
    on this path too, so the error is not delivered to the caller alone. *)
Theorem C4_onError_rethrows_while_waiting :
  currentFuture example_subscribing = Some 1 /\
  Future_wait 1 example_subscribing = Blocked /\
  deliver (CbError 1) [access_denied] example_subscribing =
    (Throw access_denied, resolved_with 1 (Thrown access_denied) example_subscribing) /\
  Future_wait 1 (resolved_with 1 (Thrown access_denied) example_subscribing) =
    Raises access_denied.
Proof. repeat split. Qed.

(** C5, counterexample: the constructor is parked on the connect wait, which
    is unresolved, and [connected] has not been assigned.  A forced-
    reconnect disconnect event assigns it: the field is [false] afterwards. *)
Lemma C5_forced_reconnect_marks_disconnected :
  isForcedReconnect forced_reconnect = true /\
  connectFuture example_connecting = Some 0 /\
  resolved example_connecting 0 = false /\
  connected example_connecting = None /\
  connected (deliver CbDisconnect [forced_reconnect] example_connecting).2 = Some false /\
  connected (deliver CbDisconnect [forced_reconnect] example_connecting).2
    <> connected example_connecting.
Proof. repeat split. discriminate. Qed.

(** C5, amended: a forced-reconnect disconnect event that arrives while the
    connect wait [c] is unresolved sets [connected = false], as the handler
    does first for every disconnect event, and does nothing else: it
    returns normally, and [currentFuture], the futures, the connection and
    the trace are as before, so no wait is resolved. *)
Theorem C5_forced_reconnect_before_connect s c args :
  let error := arg 0 args in
  let s' := (deliver CbDisconnect args s).2 in
  isForcedReconnect error = true ->
  connectFuture s = Some c ->
  resolved s c = false ->
  deliver CbDisconnect args s = (Ok tt, with_connected (Some false) s) /\
  connected s' = Some false /\
  currentFuture s' = currentFuture s /\
  futures s' = futures s /\
  trace s' = trace s /\
  (forall f, Future_wait f s' = Future_wait f s).
Proof.
  intros error s' Hforced Hcf Hres. subst s'. simpl. fold error.
  rewrite (onDisconnect_forced s c error Hforced Hcf), Hres. done.
Qed.

Lemma C5_forced_reconnect_before_connect_witness :
  deliver CbDisconnect [forced_reconnect] example_connecting =
    (Ok tt, with_connected (Some false) example_connecting) /\
  currentFuture (deliver CbDisconnect [forced_reconnect] example_connecting).2 = Some 0.
Proof.
  destruct (C5_forced_reconnect_before_connect example_connecting 0 [forced_reconnect]
              eq_refl eq_refl eq_refl) as (Hrun & _ & Hcur & _).
  split; [exact Hrun | exact Hcur].
Defined.

(** C6: a forced-reconnect disconnect event that arrives when the connect
    wait [c] is already resolved makes the handler throw the fatal
    [Error("disconnect before connect?")].  It is not ignored, and it is not
    delivered to a pending wait: [currentFuture], the futures and the trace
    are as before, so a fiber parked on any future sees what it saw. *)
Theorem C6_forced_reconnect_after_connect s c args :
  let error := arg 0 args in
  let s' := (deliver CbDisconnect args s).2 in
  isForcedReconnect error = true ->
  connectFuture s = Some c ->
  resolved s c = true ->
  (deliver CbDisconnect args s).1 = Throw (Error "disconnect before connect?") /\
  s' = with_connected (Some false) s /\
  currentFuture s' = currentFuture s /\
  futures s' = futures s /\
  trace s' = trace s /\
  (forall f, Future_wait f s' = Future_wait f s).
Proof.
  intros error s' Hforced Hcf Hres. subst s'. simpl. fold error.
  rewrite (onDisconnect_forced s c error Hforced Hcf), Hres. done.
Qed.

Lemma C6_forced_reconnect_after_connect_witness :
  deliver CbDisconnect [forced_reconnect] example_calling =
    (Throw (Error "disconnect before connect?"),
     with_connected (Some false) example_calling) /\
  Future_wait 1 (deliver CbDisconnect [forced_reconnect] example_calling).2 = Blocked.
Proof.
  destruct (C6_forced_reconnect_after_connect example_calling 0 [forced_reconnect]
              eq_refl eq_refl eq_refl) as (Hrun & Hst & _ & _ & _ & Hwait).
  split; [|exact (Hwait 1)].
  rewrite <- Hst, <- Hrun. apply surjective_pairing.
Defined.

(** C7: a disconnect event that is not a forced reconnect and finds no wait
    pending sets [connected = false] and changes nothing else; the handler
    throws the error itself if one was supplied (a truthy value), and
    returns normally if none was. *)
Theorem C7_disconnect_nobody_waiting s args :
  let error := arg 0 args in
  isForcedReconnect error = false ->
  currentFuture s = None ->
  deliver CbDisconnect args s =
    (if truthy error then Throw error else Ok tt, with_connected (Some false) s).
Proof.
  intros error Hforced Hcur. simpl. fold error.
  by apply onDisconnect_idle.
Qed.

Lemma C7_disconnect_nobody_waiting_witness :
  deliver CbDisconnect [Error "ECONNRESET"] example_idle =
    (Throw (Error "ECONNRESET"), with_connected (Some false) example_idle) /\
  deliver CbDisconnect [] example_idle =
    (Ok tt, with_connected (Some false) example_idle).
Proof.
  split.
  - apply (C7_disconnect_nobody_waiting example_idle [Error "ECONNRESET"]); reflexivity.
  - apply (C7_disconnect_nobody_waiting example_idle []); reflexivity.
Defined.

(** C8, counterexample: the constructor issues [DDP.connect] first (line
    49) and creates the connect future after it (line 53); when the connect
    call has been issued [currentFuture] is still unset and no future
    exists. *)
Lemma C8_connect_precedes_wait_slot :
  ~ slot_before_connect (trace example_connecting) /\
  let issued := (ctor_connect "https://example.test" [("headers", VRecord [])] 1 fresh).2 in
  trace issued =
    [Transport (DDP_connect "https://example.test"
                  (connect_options [("headers", VRecord [])]))] /\
  currentFuture issued = None /\
  futures issued = [].
Proof.
  split; [|done].
  intros (i & j & Hi & Hj & Hlt).
  vm_compute in Hi, Hj. injection Hi as <-. injection Hj as <-. lia.
Qed.

(** C8, amended: connection establishment issues the transport connect call
    first and then creates its wait slot, installs it as the current
    pending wait, registers the disconnect handler and parks on the slot.
    The success callback marks [connected = true] and then checks the
    pending wait: it throws a fatal error if none is pending or if the
    pending one is not the connect wait, and otherwise clears
    [currentFuture] and resolves the connect wait with success. *)
Theorem C8_connect_then_wait_slot endpointUrl options handle :
  let s := booted endpointUrl options handle in
  let issued := (ctor_connect endpointUrl options handle fresh).2 in
  new_ServiceConnection endpointUrl options handle fresh = (Ok 0, s) /\
  trace s = [Transport (DDP_connect endpointUrl (connect_options options));
             NewFuture 0;
             Transport stream_on_disconnect] /\
  position is_connect_call (trace s) = Some 0 /\
  position is_new_future (trace s) = Some 1 /\
  currentFuture issued = None /\
  futures issued = [] /\
  currentFuture s = Some 0 /\
  connectFuture s = Some 0 /\
  Future_wait 0 s = Blocked /\
  forall s',
    connectFuture s' = connectFuture s ->
    (currentFuture s' = None ->
     deliver CbConnected [] s' =
       (Throw (Error "nobody waiting for connection?"),
        with_connected (Some true) s')) /\
    (forall g, currentFuture s' = Some g -> g <> 0 ->
     deliver CbConnected [] s' =
       (Throw (Error "waiting for something that isn't connection?"),
        with_connected (Some true) s')) /\
    (currentFuture s' = Some 0 -> futures s' !! 0 = Some Pending ->
     deliver CbConnected [] s' =
       (Ok tt, resolved_with 0 (Returned VUndefined) (with_connected (Some true) s'))).
Proof.
  intros s issued. do 9 (split; [done|]).
  intros s' Hcf. simpl in Hcf. split; [|split].
  - apply onConnected_idle.
  - intros g Hcur Hg. apply (onConnected_other s' g Hcur). congruence.
  - intros Hcur Hp. by apply onConnected_own.
Qed.

Lemma C8_connect_then_wait_slot_witness :
  deliver CbConnected [] example_connecting =
    (Ok tt, resolved_with 0 (Returned VUndefined)
              (with_connected (Some true) example_connecting)) /\
  deliver CbConnected [] example_calling =
    (Throw (Error "waiting for something that isn't connection?"),
     with_connected (Some true) example_calling).
Proof.
  pose proof (C8_connect_then_wait_slot "https://example.test" [("headers", VRecord [])] 1)
    as (_ & _ & _ & _ & _ & _ & _ & _ & _ & Hcb).
  split.
  - apply (Hcb example_connecting eq_refl); reflexivity.
  - apply (proj1 (proj2 (Hcb example_calling eq_refl)) 1); [reflexivity | lia].
Defined.

(** C9: [close] never throws.  On a facade that owns a handle it issues one
    transport close and sets the handle to null; on a facade without a
    handle it does nothing at all, so a second close, and every later one,
    is a no-op.  No close touches [currentFuture], a future, or
    [connected]: a fiber parked on any future sees what it saw before. *)
Theorem C9_close_idempotent s :
  let s1 := (close s).2 in
  (close s).1 = Ok tt /\
  connection s1 = None /\
  (forall h, connection s = Some h ->
             trace s1 = trace s ++ [Transport connection_close]) /\
  (connection s = None -> s1 = s) /\
  close s1 = (Ok tt, s1) /\
  (forall n, after (replicate n Close) s1 = s1) /\
  currentFuture s1 = currentFuture s /\
  futures s1 = futures s /\
  connected s1 = connected s /\
  (forall f, Future_wait f s1 = Future_wait f s).
Proof.
  intros s1.
  assert (forall s0, connection s0 = None -> close s0 = (Ok tt, s0)) as Hnoop.
  { intros s0 E. unfold close. run. by rewrite E. }
  assert (forall s0 n, connection s0 = None -> after (replicate n Close) s0 = s0) as Hrep.
  { intros s0 n E. induction n as [|n IH]; simpl; [done|].
    rewrite (Hnoop s0 E). apply IH. }
  assert (close s = (Ok tt, s1) /\ connection s1 = None) as [Hrun Hnull].
  { subst s1. unfold close. run. destruct (connection s) eqn:E; simpl; by rewrite ?E. }
  split; [by rewrite Hrun|]. split; [done|].
  split.
  { intros h E. subst s1. unfold close. run. by rewrite E. }
  split.
  { intros E. subst s1. by rewrite (Hnoop s E). }
  split; [by apply Hnoop|].
  split; [intros n; by apply Hrep|].
  subst s1. unfold close. run. destruct (connection s); simpl; done.
Qed.

Lemma C9_close_idempotent_witness :
  trace (close example_calling).2 = trace example_calling ++ [Transport connection_close] /\
  close (close example_calling).2 = (Ok tt, (close example_calling).2) /\
  Future_wait 1 (close example_calling).2 = Blocked.
Proof.
  destruct (C9_close_idempotent example_calling)
    as (_ & _ & Htrace & _ & Hagain & _ & _ & _ & _ & Hwait).
  split; [apply (Htrace 1); reflexivity|].
  split; [exact Hagain | exact (Hwait 1)].
Defined.

(** C10, counterexample: [onError] compares the pending slot with its own
    [subFuture] too.  With the call's slot 2 pending, the [onError] of the
    subscription that owned slot 1 leaves slot 2 alone (and throws), while
    the same callback closed over slot 2 would fail it. *)
Lemma C10_onError_checks_identity :
  ~ only_onConnected_checks_identity /\
  currentFuture example_calling_after_subscription = Some 2 /\
  deliver (CbError 1) [access_denied] example_calling_after_subscription =
    (Throw access_denied, example_calling_after_subscription) /\
  deliver (CbError 2) [access_denied] example_calling_after_subscription =
    (Throw access_denied,
     resolved_with 2 (Thrown access_denied) example_calling_after_subscription).
Proof.
  split; [|done].
  intros H.
  specialize (H (CbError 1) ltac:(discriminate) ltac:(discriminate)
                "https://example.test" [("headers", VRecord [])] 1
                [Notify CbConnected [];
                 SubscribeAndWait [VStr "publication"] (VObj 2);
                 Notify CbReady []; Apply [VStr "method"; VArr []]]
                [access_denied] 2 eq_refl).
  vm_compute in H. discriminate.
Qed.

(** C10, amended: in every history the result callback of [apply] throws
    its fatal [Error("nobody listening for result?")] exactly when
    [currentFuture] is null as it fires; when a wait [f] is pending it
    clears [currentFuture] and resolves [f], whichever operation created
    [f].  [onReady] treats the pending wait in the same way.  The callbacks
    that compare the pending slot with a slot of their own are the connect
    success callback and the subscription's [onError]: each leaves a
    pending wait that is not its own unresolved. *)
Theorem C10_result_callback_claims_any_wait endpointUrl options handle ops err result :
  let s := after ops (booted endpointUrl options handle) in
  ((deliver CbResult [err; result] s).1 = Throw (Error "nobody listening for result?")
   <-> currentFuture s = None) /\
  (currentFuture s = None -> (deliver CbResult [err; result] s).2 = s) /\
  (forall f, currentFuture s = Some f ->
     deliver CbResult [err; result] s =
       (Ok tt, resolved_with f (if truthy err then Thrown err else Returned result) s) /\
     deliver CbReady [] s = (Ok tt, resolved_with f (Returned VUndefined) s) /\
     (connectFuture s <> Some f ->
      deliver CbConnected [] s =
        (Throw (Error "waiting for something that isn't connection?"),
         with_connected (Some true) s)) /\
     (forall g e, g <> f -> deliver (CbError g) [e] s = (Throw e, s))).
Proof.
  intros s.
  assert (forall f, currentFuture s = Some f -> futures s !! f = Some Pending) as I
    by (intros f; apply history_current_pending).
  cbn [deliver].
  change (arg 0 [err; result]) with err. change (arg 1 [err; result]) with result.
  split; [|split].
  - destruct (currentFuture s) as [f|] eqn:Hcur.
    + rewrite (onResult_pending s f err result Hcur (I f eq_refl)).
      split; discriminate.
    + by rewrite (onResult_idle s err result Hcur).
  - intros Hcur. by rewrite (onResult_idle s err result Hcur).
  - intros f Hcur. pose proof (I f Hcur) as Hp.
    split; [by apply onResult_pending|].
    split; [by apply onReady_pending|].
    split; [intros Hcf; by apply (onConnected_other s f)|].
    intros g e Hg. apply onError_late. congruence.
Qed.

Lemma C10_result_callback_claims_any_wait_witness :
  deliver CbResult [VNull; VNum 7] example_connecting =
    (Ok tt, resolved_with 0 (Returned (VNum 7)) example_connecting) /\
  deliver CbResult [VNull; VNum 7] example_subscribing =
    (Ok tt, resolved_with 1 (Returned (VNum 7)) example_subscribing) /\
  (deliver CbResult [VNull; VNum 7] example_idle).1 =
    Throw (Error "nobody listening for result?").
Proof.
  split; [|split].
  - apply (proj2 (proj2 (C10_result_callback_claims_any_wait
             "https://example.test" [("headers", VRecord [])] 1 [] VNull (VNum 7)))
             0 eq_refl).
  - apply (proj2 (proj2 (C10_result_callback_claims_any_wait
             "https://example.test" [("headers", VRecord [])] 1
             [Notify CbConnected []; SubscribeAndWait [VStr "publication"] (VObj 2)]
             VNull (VNum 7)))
             1 eq_refl).
  - apply (proj1 (C10_result_callback_claims_any_wait
             "https://example.test" [("headers", VRecord [])] 1
             [Notify CbConnected []] VNull (VNum 7))).
    reflexivity.
Defined.

(** * Further properties of the code *)

(** ** A resolved future is not touched again *)

Lemma holds_modify f o g :
  (forall s, futures (g s) = futures s) -> preserves (holds f o) (modify g).
Proof. intros Hg s H. unfold holds in *. simpl. by rewrite Hg. Qed.

Lemma holds_new f o : preserves (holds f o) Future_new.
Proof.
  intros s H. unfold holds in *. simpl.
  rewrite lookup_app_l; [done|]. eapply lookup_lt_Some; eauto.
Qed.

Lemma holds_resolve f o g o' :
  o <> Pending -> preserves (holds f o) (Future_resolve g o').
Proof.
  intros Ho s H. unfold holds, Future_resolve in *.
  destruct (futures s !! g) as [[]|] eqn:Hg; simpl; try done.
  rewrite list_lookup_insert_ne; [done|]. intros ->. congruence.
Qed.

Lemma holds_isResolved f o g : preserves (holds f o) (Future_isResolved g).
Proof. by intros s. Qed.

Ltac holds_step :=
  first [ apply holds_modify; reflexivity
        | apply holds_new
        | apply holds_resolve; assumption
        | apply holds_isResolved ].

Lemma after_holds f o ops s :
  o <> Pending -> futures s !! f = Some o -> futures (after ops s) !! f = Some o.
Proof.
  intros Ho. apply (perform_preserves (holds f o)).
  - intros. preserved_by holds_step.
  - intros. preserved_by holds_step.
  - preserved_by holds_step.
  - intros cb args. destruct cb; preserved_by holds_step.
Qed.

Lemma deliver_holds f o cb args :
  o <> Pending -> preserves (holds f o) (deliver cb args).
Proof. intros Ho. destruct cb; preserved_by holds_step. Qed.

Lemma resolved_holds s f :
  resolved s f = true -> exists o, o <> Pending /\ futures s !! f = Some o.
Proof.
  unfold resolved. destruct (futures s !! f) as [[]|] eqn:E; try done;
    intros _; eexists; (split; [|reflexivity]); discriminate.
Qed.

(** ** [connected] is written, never read *)

(** X11: no method and no callback reads [self.connected].  Run from two
    facades that differ in that field only, each method and each completion
    callback gives the same result and the same state up to that field;
    [onConnected] and the disconnect handler overwrite it, so they give the
    very same state. *)
Theorem connected_is_never_read b s :
  (forall arguments,
     apply arguments (with_connected b s) =
       ((apply arguments s).1, with_connected b (apply arguments s).2)) /\
  (forall arguments,
     call arguments (with_connected b s) =
       ((call arguments s).1, with_connected b (call arguments s).2)) /\
  (forall arguments sub,
     subscribeAndWait arguments sub (with_connected b s) =
       ((subscribeAndWait arguments sub s).1,
        with_connected b (subscribeAndWait arguments sub s).2)) /\
  close (with_connected b s) = ((close s).1, with_connected b (close s).2) /\
  (forall cb args,
     cb <> CbConnected -> cb <> CbDisconnect ->
     deliver cb args (with_connected b s) =
       ((deliver cb args s).1, with_connected b (deliver cb args s).2)) /\
  (forall args,
     deliver CbConnected args (with_connected b s) = deliver CbConnected args s) /\
  (forall args,
     deliver CbDisconnect args (with_connected b s) = deliver CbDisconnect args s).
Proof.
  destruct s as [cn cd cur cf fu tr].
  assert (forall arguments,
     apply arguments (with_connected b (mkSC cn cd cur cf fu tr)) =
       ((apply arguments (mkSC cn cd cur cf fu tr)).1,
        with_connected b (apply arguments (mkSC cn cd cur cf fu tr)).2)) as Happly.
  { intros. unfold apply, with_connected. run.
    destruct cur; [done|]. by destruct cn. }
  split; [exact Happly|].
  split; [intros; apply Happly|].
  split.
  { intros. unfold subscribeAndWait, with_connected. run.
    destruct cur; [done|]. by destruct cn. }
  split.
  { unfold close, with_connected. run. by destruct cn. }
  split.
  { intros cb args H1 H2. destruct cb; try done; cbn [deliver].
    - unfold onResult, with_connected. run. destruct cur as [f|]; [|done].
      destruct (truthy (arg 0 args)) eqn:He; run;
        unfold Future_throw, Future_resolve; simpl; rewrite ?He;
        by destruct (fu !! f) as [[]|].
    - unfold onReady, with_connected. run. destruct cur as [f|]; [|done].
      run. by destruct (fu !! f) as [[]|].
    - unfold onError, with_connected. run. case_bool_decide; run; [|done].
      unfold Future_throw, Future_resolve. simpl.
      destruct (fu !! subFuture) as [[]|]; try done.
      by destruct (truthy (arg 0 args)). }
  split.
  { intros args. cbn [deliver]. unfold onConnected, with_connected. run.
    destruct cur as [f|]; [|done].
    case_bool_decide; run; [|done]. by destruct (fu !! f) as [[]|]. }
  intros args. cbn [deliver]. unfold onDisconnect, with_connected. run.
  destruct (isForcedReconnect (arg 0 args)); run.
  - destruct cf as [c|]; [|done]. run. unfold resolved. simpl.
    by destruct (fu !! c) as [[]|].
  - destruct cur as [f|]; run.
    + unfold Future_throw, Future_resolve. simpl.
      destruct (fu !! f) as [[]|]; try done; by rewrite truthy_failure.
    + by destruct (truthy (arg 0 args)).
Qed.

(** ** The options of the one transport session *)

Lemma field_missing k fs : has_key k fs = false -> field k fs = VUndefined.
Proof.
  induction fs as [|[k' v] fs IH]; [done|]. simpl.
  case_bool_decide; [done|]. exact IH.
Qed.

Lemma extend_passes k base over :
  has_key k over = false -> field k (extend base over) = field k base.
Proof.
  intros Hk. unfold extend. induction base as [|[k' v] base IH].
  - simpl. by apply field_missing.
  - rewrite filter_cons. simpl. case_decide as Hd; simpl.
    + case_bool_decide; [done | exact IH].
    + case_bool_decide as E; [|exact IH]. subst k'. congruence.
Qed.

(** X1: whatever options the caller gives, the constructor's first effect
    is one [DDP.connect] to the given url whose options have [retry] false,
    [connectTimeoutMs] 15000 and the facade's own [onConnected]; every
    other option of the caller (headers, [_dontPrintErrors], ...) reaches
    the transport with the caller's value, and an option the caller did not
    give stays undefined. *)
Theorem constructor_forces_connect_policy endpointUrl options handle :
  exists sent,
    trace (booted endpointUrl options handle) !! 0 =
      Some (Transport (DDP_connect endpointUrl sent)) /\
    field "retry" sent = VBool false /\
    field "connectTimeoutMs" sent = VNum 15000 /\
    field "onConnected" sent = VFun CbConnected /\
    (forall k, k <> "retry" -> k <> "connectTimeoutMs" -> k <> "onConnected" ->
               field k sent = field k options).
Proof.
  exists (connect_options options). split; [done|].
  unfold connect_options. rewrite !extend_overrides by done.
  do 3 (split; [done|]).
  intros k H1 H2 H3. apply extend_passes. simpl.
  by rewrite !bool_decide_eq_false_2 by done.
Qed.

Lemma constructor_forces_connect_policy_witness :
  exists sent,
    trace (booted "https://example.test"
             [("retry", VBool true); ("headers", VRecord [("x-token", VStr "t")])] 1) !! 0 =
      Some (Transport (DDP_connect "https://example.test" sent)) /\
    field "retry" sent = VBool false /\
    field "headers" sent = VRecord [("x-token", VStr "t")].
Proof.
  destruct (constructor_forces_connect_policy "https://example.test"
              [("retry", VBool true); ("headers", VRecord [("x-token", VStr "t")])] 1)
    as (sent & H0 & Hretry & _ & _ & Hpass).
  exists sent. split; [exact H0|]. split; [exact Hretry|].
  rewrite (Hpass "headers"); [reflexivity | discriminate..].
Defined.

(** ** One transport session *)

Lemma occurrences_app kind t e :
  occurrences kind (t ++ [e]) = occurrences kind t + (if kind e then 1 else 0).
Proof.
  unfold occurrences. rewrite filter_app, length_app. f_equal.
  rewrite filter_cons, filter_nil. by destruct (kind e).
Qed.

Lemma session_same kind n t0 g :
  (forall s, trace (g s) = trace s) -> preserves (session kind n t0) (modify g).
Proof. intros Hg s H. unfold session in *. simpl. by rewrite Hg. Qed.

Lemma session_append kind n t0 s e :
  kind e = false -> session kind n t0 s ->
  occurrences kind (trace s ++ [e]) = n /\ take (length t0) (trace s ++ [e]) = t0.
Proof.
  intros He [Hn Ht]. split.
  - rewrite occurrences_app, He. lia.
  - rewrite take_app_le; [done|].
    rewrite <- Ht at 1. rewrite length_take. lia.
Qed.

Lemma session_emit kind n t0 g e :
  (forall s, trace (g s) = trace s ++ [e]) -> kind e = false ->
  preserves (session kind n t0) (modify g).
Proof.
  intros Hg He s H. unfold session. simpl. rewrite Hg.
  by apply session_append.
Qed.

Lemma session_new kind n t0 :
  (forall f, kind (NewFuture f) = false) -> preserves (session kind n t0) Future_new.
Proof. intros Hk s H. unfold session. simpl. by apply session_append. Qed.

Lemma session_resolve kind n t0 f o :
  (forall g o', kind (Resolve g o') = false) ->
  preserves (session kind n t0) (Future_resolve f o).
Proof.
  intros Hk s H. unfold Future_resolve.
  destruct (futures s !! f) as [[]|]; simpl; try done.
  unfold session. simpl. by apply session_append.
Qed.

Lemma session_isResolved kind n t0 f :
  preserves (session kind n t0) (Future_isResolved f).
Proof. by intros s. Qed.

Ltac session_step :=
  first [ apply session_same; reflexivity
        | eapply session_emit; [reflexivity | solve [auto]]
        | apply session_new; solve [auto]
        | apply session_resolve; solve [auto]
        | apply session_isResolved ].

Lemma after_session kind n t0 ops s :
  kind (Transport connection_close) = false ->
  (forall a, kind (Transport (connection_apply a)) = false) ->
  (forall a, kind (Transport (connection_subscribe a)) = false) ->
  (forall f, kind (NewFuture f) = false) ->
  (forall g o', kind (Resolve g o') = false) ->
  session kind n t0 s -> session kind n t0 (after ops s).
Proof.
  intros Hc Ha Hs Hn Hr. apply (perform_preserves (session kind n t0)).
  - intros. preserved_by session_step.
  - intros. preserved_by session_step.
  - preserved_by session_step.
  - intros cb args. destruct cb; preserved_by session_step.
Qed.

(** X4: a facade never reconnects and observes the stream once.  In every
    history the trace starts with the constructor's three effects (the
    connect call, the connect future, the registration of the disconnect
    handler) and holds exactly one [DDP.connect] and exactly one
    [on('disconnect')]: no method and no callback issues either again. *)
Theorem one_transport_session endpointUrl options handle ops :
  let s := after ops (booted endpointUrl options handle) in
  take 3 (trace s) =
    [Transport (DDP_connect endpointUrl (connect_options options));
     NewFuture 0;
     Transport stream_on_disconnect] /\
  occurrences is_connect_call (trace s) = 1 /\
  occurrences is_observe_call (trace s) = 1.
Proof.
  intros s.
  assert (session is_connect_call 1 (trace (booted endpointUrl options handle)) s) as [H1 Ht]
    by (apply after_session; done).
  assert (session is_observe_call 1 (trace (booted endpointUrl options handle)) s) as [H2 _]
    by (apply after_session; done).
  done.
Qed.

(** ** The connect wait *)

Lemma not_pending_resolved s f :
  is_Some (futures s !! f) -> pending s f = false -> resolved s f = true.
Proof.
  intros [o Ho]. unfold pending, resolved. rewrite Ho. by destruct o.
Qed.

Lemma resolved_not_pending s f : resolved s f = true -> pending s f = false.
Proof.
  unfold pending, resolved. by destruct (futures s !! f) as [[]|].
Qed.

Lemma deliver_resolved cb args s f :
  resolved s f = true -> resolved (deliver cb args s).2 f = true.
Proof.
  intros Hr. destruct (resolved_holds s f Hr) as (o & Ho & Hf).
  pose proof (deliver_holds f o cb args Ho s Hf) as H. unfold holds in H.
  unfold resolved. rewrite H. by destruct o.
Qed.

Lemma allocated_modify f g :
  (forall s, futures (g s) = futures s) -> preserves (allocated f) (modify g).
Proof. intros Hg s H. unfold allocated in *. simpl. by rewrite Hg. Qed.

Lemma allocated_new f : preserves (allocated f) Future_new.
Proof. intros s H. unfold allocated in *. simpl. rewrite length_app. lia. Qed.

Lemma allocated_resolve f g o : preserves (allocated f) (Future_resolve g o).
Proof.
  intros s H. unfold allocated, Future_resolve in *.
  destruct (futures s !! g) as [[]|]; simpl; try done. by rewrite length_insert.
Qed.

Lemma allocated_isResolved f g : preserves (allocated f) (Future_isResolved g).
Proof. by intros s. Qed.

Ltac allocated_step :=
  first [ apply allocated_modify; reflexivity
        | apply allocated_new
        | apply allocated_resolve
        | apply allocated_isResolved ].

Lemma deliver_allocated f cb args : preserves (allocated f) (deliver cb args).
Proof. destruct cb; preserved_by allocated_step. Qed.

Lemma apply_allocated f arguments : preserves (allocated f) (apply arguments).
Proof. preserved_by allocated_step. Qed.

Lemma subscribeAndWait_allocated f arguments sub :
  preserves (allocated f) (subscribeAndWait arguments sub).
Proof. preserved_by allocated_step. Qed.

Lemma close_allocated f : preserves (allocated f) close.
Proof. preserved_by allocated_step. Qed.

(** The methods leave [connected] and [connectFuture] alone. *)
Lemma apply_keeps_connect arguments s :
  connected (apply arguments s).2 = connected s /\
  connectFuture (apply arguments s).2 = connectFuture s.
Proof.
  unfold apply. run. destruct (currentFuture s); [done|].
  by destruct (connection s).
Qed.

Lemma subscribeAndWait_keeps_connect arguments sub s :
  connected (subscribeAndWait arguments sub s).2 = connected s /\
  connectFuture (subscribeAndWait arguments sub s).2 = connectFuture s.
Proof.
  unfold subscribeAndWait. run. destruct (currentFuture s); [done|].
  by destruct (connection s).
Qed.

Lemma close_keeps_connect s :
  connected (close s).2 = connected s /\
  connectFuture (close s).2 = connectFuture s.
Proof. unfold close. run. by destruct (connection s). Qed.

(** While the connect future is unresolved it is the pending wait. *)
Lemma connect_wait_is_current s :
  wait_invariant s -> pending s 0 = true -> currentFuture s = Some 0.
Proof.
  intros (_ & Hstr & Hrange & _) P.
  destruct (Hstr 0 P) as [H|H]; [done|]. specialize (Hrange 0 H). lia.
Qed.

Lemma connect_future_exists s : wait_invariant s -> is_Some (futures s !! 0).
Proof. intros (_ & _ & _ & Hlen). by apply lookup_lt_is_Some. Qed.

Lemma deliver_connected cb args s :
  wait_invariant s -> connectFuture s = Some 0 ->
  (connected s = Some true -> resolved s 0 = true) ->
  connected (deliver cb args s).2 = Some true ->
  resolved (deliver cb args s).2 0 = true.
Proof.
  intros I Hcf Himp.
  pose proof (proj1 I) as Hcip.
  pose proof (connect_future_exists s I) as Hs.
  assert (forall t, futures t = futures s -> currentFuture s <> Some 0 ->
                    resolved t 0 = true) as Hother.
  { intros t Ht Hne. rewrite (resolved_ext s t 0 Ht).
    apply (not_pending_resolved s 0 Hs).
    destruct (pending s 0) eqn:P; [|done].
    by apply connect_wait_is_current in P. }
  assert (forall t, connected t = connected s ->
                    (resolved s 0 = true -> resolved t 0 = true) ->
                    connected t = Some true -> resolved t 0 = true) as Hkeep.
  { intros t Hc Hr H. apply Hr, Himp. congruence. }
  destruct cb; cbn [deliver].
  - (* onConnected *)
    intros _. destruct (currentFuture s) as [f|] eqn:Hcur.
    + destruct (decide (f = 0)) as [->|Hne].
      * rewrite (onConnected_own s 0 Hcur Hcf (Hcip 0 eq_refl)).
        unfold resolved, resolved_with. simpl.
        rewrite list_lookup_insert_eq; [done|].
        eapply lookup_lt_Some, (Hcip 0 eq_refl).
      * rewrite (onConnected_other s f Hcur) by congruence.
        apply Hother; [done|congruence].
    + rewrite (onConnected_idle s Hcur). by apply Hother.
  - (* the disconnect handler leaves [connected] false *)
    destruct (isForcedReconnect (arg 0 args)) eqn:Hforced.
    + by rewrite (onDisconnect_forced_state s _ Hforced).
    + destruct (currentFuture s) as [f|] eqn:Hcur.
      * by rewrite (onDisconnect_pending s f _ Hforced Hcur (Hcip f eq_refl)).
      * by rewrite (onDisconnect_idle s _ Hforced Hcur).
  - apply Hkeep; [|apply (deliver_resolved CbResult args)].
    destruct (currentFuture s) as [f|] eqn:Hcur.
    + by rewrite (onResult_pending s f _ _ Hcur (Hcip f eq_refl)).
    + by rewrite (onResult_idle s _ _ Hcur).
  - apply Hkeep; [|apply (deliver_resolved CbReady args)].
    destruct (currentFuture s) as [f|] eqn:Hcur.
    + by rewrite (onReady_pending s f Hcur (Hcip f eq_refl)).
    + by rewrite (onReady_idle s Hcur).
  - apply Hkeep; [|apply (deliver_resolved (CbError subFuture) args)].
    destruct (decide (currentFuture s = Some subFuture)) as [Hcur|Hcur].
    + destruct (truthy (arg 0 args)) eqn:He.
      * by rewrite (onError_own s subFuture _ Hcur (Hcip _ Hcur) He).
      * by rewrite (onError_own_empty s subFuture _ Hcur (Hcip _ Hcur) He).
    + by rewrite (onError_late s subFuture _ Hcur).
Qed.

Lemma perform_connected op s :
  wait_invariant s -> connectFuture s = Some 0 ->
  (connected s = Some true -> resolved s 0 = true) ->
  connected (perform op s) = Some true -> resolved (perform op s) 0 = true.
Proof.
  intros I Hcf Himp. destruct op as [a|a|a sub| |cb args]; cbn [perform].
  - unfold call. rewrite apply_resolves_nothing, (proj1 (apply_keeps_connect _ s)). done.
  - rewrite apply_resolves_nothing, (proj1 (apply_keeps_connect a s)). done.
  - rewrite subscribeAndWait_resolves_nothing,
      (proj1 (subscribeAndWait_keeps_connect a sub s)). done.
  - rewrite close_resolves_nothing, (proj1 (close_keeps_connect s)). done.
  - destruct (available s cb); [by apply deliver_connected | done].
Qed.

Lemma history_connect_invariant endpointUrl options handle ops :
  connect_invariant (after ops (booted endpointUrl options handle)).
Proof.
  split; [apply history_wait_invariant|]. split; [apply history_connectFuture|].
  induction ops as [|op ops IH] using rev_ind; [done|].
  rewrite after_app. simpl. apply perform_connected; [| |exact IH].
  - apply history_wait_invariant.
  - apply history_connectFuture.
Qed.

(** X3: in every history the constructor's [connectFuture] is the first
    future; [connected] is never [true] while the constructor is still
    parked on it; and as long as it is unresolved it is the one pending
    wait, so every [apply], [call] and [subscribeAndWait] made meanwhile is
    refused. *)
Theorem connected_only_after_connect_wait endpointUrl options handle ops :
  let s := after ops (booted endpointUrl options handle) in
  connectFuture s = Some 0 /\
  (connected s = Some true -> resolved s 0 = true) /\
  (resolved s 0 = false ->
   Future_wait 0 s = Blocked /\
   currentFuture s = Some 0 /\
   connected s <> Some true /\
   forall arguments sub,
     apply arguments s = (Throw fatal_two_waits, s) /\
     call arguments s = (Throw fatal_two_waits, s) /\
     subscribeAndWait arguments sub s = (Throw fatal_two_waits, s)).
Proof.
  intros s.
  destruct (history_connect_invariant endpointUrl options handle ops)
    as (I & Hcf & Himp). fold s in I, Hcf, Himp.
  split; [done|]. split; [done|]. intros Hr.
  assert (pending s 0 = true) as Hp.
  { destruct (pending s 0) eqn:P; [done|].
    rewrite (not_pending_resolved s 0 (connect_future_exists s I) P) in Hr. done. }
  pose proof (connect_wait_is_current s I Hp) as Hcur.
  split; [by apply wait_pending|]. split; [done|].
  split; [intros H; rewrite (Himp H) in Hr; done|].
  intros arguments sub. unfold call, apply, subscribeAndWait. run. by rewrite Hcur.
Qed.

Lemma connected_only_after_connect_wait_witness :
  currentFuture (after [Notify CbDisconnect [forced_reconnect]; Close] example_connecting)
    = Some 0 /\
  call [VStr "method"]
    (after [Notify CbDisconnect [forced_reconnect]; Close] example_connecting)
    = (Throw fatal_two_waits,
       after [Notify CbDisconnect [forced_reconnect]; Close] example_connecting).
Proof.
  destruct (connected_only_after_connect_wait
              "https://example.test" [("headers", VRecord [])] 1
              [Notify CbDisconnect [forced_reconnect]; Close])
    as (_ & _ & H).
  destruct (H eq_refl) as (_ & Hcur & _ & Hm).
  split; [exact Hcur|]. exact (proj1 (proj2 (Hm [VStr "method"] VNull))).
Defined.

Lemma after_disconnects_cons e errors s :
  after (disconnects (e :: errors)) s = after (disconnects errors) (onDisconnect e s).2.
Proof. reflexivity. Qed.

Lemma forced_disconnects_while_connecting s errors :
  Forall (fun e => isForcedReconnect e = true) errors ->
  connectFuture s = Some 0 -> resolved s 0 = false ->
  after (disconnects errors) s =
    match errors with
    | [] => s
    | _ => with_connected (Some false) s
    end.
Proof.
  intros Hall Hcf Hr.
  assert (forall errs t, Forall (fun e => isForcedReconnect e = true) errs ->
            connectFuture t = Some 0 -> resolved t 0 = false ->
            after (disconnects errs) (with_connected (Some false) t)
            = with_connected (Some false) t) as Hloop.
  { induction errs as [|e errs IH]; intros t Hf Hc Hres; [done|].
    apply Forall_cons in Hf as [He Hf]. rewrite after_disconnects_cons.
    rewrite (onDisconnect_forced (with_connected (Some false) t) 0 e He Hc).
    replace (resolved (with_connected (Some false) t) 0) with (resolved t 0) by done.
    rewrite Hres. exact (IH (with_connected (Some false) t) Hf Hc Hres). }
  destruct errors as [|e errors]; [done|].
  apply Forall_cons in Hall as [He Hall]. rewrite after_disconnects_cons.
  rewrite (onDisconnect_forced s 0 e He Hcf), Hr. exact (Hloop errors s Hall Hcf Hr).
Qed.

(** X2: the handshake survives forced reconnects.  However many disconnect
    events tagged as forced reconnects the stream reports while the
    constructor is parked, none of them throws or wakes the constructor;
    when the transport then reports success, the callback returns
    normally, the constructor resumes, [connected] is [true], the facade is
    idle, and the connect wait was resolved exactly once. *)
Theorem handshake_survives_forced_reconnects endpointUrl options handle errors :
  let s0 := booted endpointUrl options handle in
  let s := after (disconnects errors) s0 in
  let s' := (deliver CbConnected [] s).2 in
  Forall (fun e => isForcedReconnect e = true) errors ->
  (forall e t, e ∈ errors -> t = s0 \/ t = with_connected (Some false) s0 ->
     deliver CbDisconnect [e] t = (Ok tt, with_connected (Some false) s0)) /\
  Future_wait 0 s = Blocked /\
  currentFuture s = Some 0 /\
  (deliver CbConnected [] s).1 = Ok tt /\
  Future_wait 0 s' = Returns VUndefined /\
  connected s' = Some true /\
  currentFuture s' = None /\
  trace s' = trace s0 ++ [Resolve 0 (Returned VUndefined)].
Proof.
  intros s0 s s' Hall.
  split.
  { intros e t He Ht. rewrite Forall_forall in Hall. specialize (Hall e He).
    cbn [deliver]. change (arg 0 [e]) with e.
    destruct Ht as [-> | ->].
    - by rewrite (onDisconnect_forced s0 0 e Hall eq_refl).
    - by rewrite (onDisconnect_forced (with_connected (Some false) s0) 0 e Hall eq_refl). }
  assert (s = match errors with [] => s0 | _ => with_connected (Some false) s0 end) as Hs
    by (by apply forced_disconnects_while_connecting).
  subst s'. rewrite Hs. by destruct errors.
Qed.

Lemma handshake_survives_forced_reconnects_witness :
  Future_wait 0
    (after [Notify CbDisconnect [forced_reconnect];
            Notify CbDisconnect [forced_reconnect];
            Notify CbConnected []] example_connecting)
  = Returns VUndefined.
Proof.
  destruct (handshake_survives_forced_reconnects
              "https://example.test" [("headers", VRecord [])] 1
              [forced_reconnect; forced_reconnect])
    as (_ & _ & _ & _ & Hwait & _).
  - repeat constructor.
  - exact Hwait.
Defined.

(** ** Subscriptions *)

Lemma subscribeAndWait_idle s h arguments sub :
  currentFuture s = None -> connection s = Some h ->
  subscribeAndWait arguments sub s =
    (Ok (length (futures s), sub),
     with_trace
       (trace s ++
        [NewFuture (length (futures s));
         Transport (connection_subscribe
                      (arguments ++
                       [VRecord [("onReady", VFun CbReady);
                                 ("onError", VFun (CbError (length (futures s))))]]))])
       (with_currentFuture (Some (length (futures s)))
          (with_futures (futures s ++ [Pending]) s))).
Proof.
  intros Hcur Hconn. unfold subscribeAndWait. run. rewrite Hcur, Hconn. simpl.
  by rewrite <- app_assoc.
Qed.

(** X5: on an idle facade with an open connection [subscribeAndWait]
    creates a slot [f], hands the transport its arguments followed by the
    object [{onReady, onError}] whose [onError] is bound to [f], and parks.
    After any further history in which [f] is still the pending wait the
    caller is still blocked; [onReady] then returns normally and the caller
    gets the subscription handle that the transport's [subscribe]
    returned; [onError(e)] with a non-empty [e] instead makes the caller
    raise [e] (and throws [e] itself); [onError] with an empty error throws
    the Future library's error, clears [currentFuture] and leaves the
    caller blocked. *)
Theorem subscribeAndWait_returns_handle_when_ready
    endpointUrl options handle ops h arguments sub later e :
  let s := after ops (booted endpointUrl options handle) in
  let f := length (futures s) in
  let s1 := (subscribeAndWait arguments sub s).2 in
  let s2 := after later s1 in
  currentFuture s = None ->
  connection s = Some h ->
  (subscribeAndWait arguments sub s).1 = Ok (f, sub) /\
  trace s1 = trace s ++
    [NewFuture f;
     Transport (connection_subscribe
                  (arguments ++ [VRecord [("onReady", VFun CbReady);
                                          ("onError", VFun (CbError f))]]))] /\
  subscribed (f, sub) s1 = Blocked /\
  (currentFuture s2 = Some f ->
   subscribed (f, sub) s2 = Blocked /\
   (deliver CbReady [] s2).1 = Ok tt /\
   subscribed (f, sub) (deliver CbReady [] s2).2 = Returns sub /\
   (truthy e = true ->
    (deliver (CbError f) [e] s2).1 = Throw e /\
    subscribed (f, sub) (deliver (CbError f) [e] s2).2 = Raises e) /\
   (truthy e = false ->
    (deliver (CbError f) [e] s2).1 = Throw (Error "Must throw non-empty error") /\
    currentFuture (deliver (CbError f) [e] s2).2 = None /\
    subscribed (f, sub) (deliver (CbError f) [e] s2).2 = Blocked)).
Proof.
  intros s f s1 s2 Hcur Hconn.
  assert (forall g, currentFuture s2 = Some g -> futures s2 !! g = Some Pending) as I.
  { assert (s2 = after (ops ++ [SubscribeAndWait arguments sub] ++ later)
                   (booted endpointUrl options handle)) as ->
      by (by rewrite !after_app).
    intros g. apply history_current_pending. }
  subst s2 s1. rewrite (subscribeAndWait_idle s h arguments sub Hcur Hconn) in *.
  cbn [fst snd] in *. split; [done|]. split; [done|].
  split.
  { unfold subscribed, Future_wait. simpl. rewrite lookup_app_r by done.
    by rewrite Nat.sub_diag. }
  set (s2 := after later _) in *.
  intros Hc.
  pose proof (I f Hc) as Hp.
  assert (Future_wait f s2 = Blocked) as Hb by (by apply wait_pending, pending_lookup).
  assert (f < length (futures s2)) as Hlt by (eapply lookup_lt_Some; eauto).
  cbn [deliver]. change (arg 0 [e]) with e.
  rewrite (onReady_pending s2 f Hc Hp).
  unfold subscribed. cbn [fst snd]. rewrite Hb.
  split; [done|]. split; [done|].
  split; [by rewrite wait_resolved_with by done|].
  split.
  - intros He. rewrite (onError_own s2 f e Hc Hp He). cbn [fst snd].
    by rewrite wait_resolved_with by done.
  - intros He. rewrite (onError_own_empty s2 f e Hc Hp He). cbn [fst snd].
    split; [done|]. split; [done|].
    replace (Future_wait f (with_currentFuture None s2)) with (Future_wait f s2) by done.
    by rewrite Hb.
Qed.

Lemma subscribeAndWait_returns_handle_when_ready_witness :
  (subscribeAndWait [VStr "publication"] (VObj 2) example_idle).1 = Ok (1, VObj 2) /\
  subscribed (1, VObj 2) example_subscribing = Blocked /\
  subscribed (1, VObj 2) (deliver CbReady [] example_subscribing).2 = Returns (VObj 2) /\
  subscribed (1, VObj 2) (deliver (CbError 1) [access_denied] example_subscribing).2
    = Raises access_denied.
Proof.
  destruct (subscribeAndWait_returns_handle_when_ready
              "https://example.test" [("headers", VRecord [])] 1
              [Notify CbConnected []] 1 [VStr "publication"] (VObj 2) [] access_denied
              eq_refl eq_refl)
    as (Hrun & _ & Hblocked & Hcb).
  destruct (Hcb eq_refl) as (_ & _ & Hready & Herr & _).
  destruct (Herr eq_refl) as (_ & Hraise).
  vm_compute in Hrun, Hblocked, Hready, Hraise. vm_compute.
  split; [exact Hrun|]. split; [exact Hblocked|]. split; [exact Hready | exact Hraise].
Defined.

(** ** Callbacks that arrive too late or twice *)

(** X6: a callback that has resolved the pending wait leaves the facade
    idle, and a completion callback that fires after that (a duplicate, or
    one that lost the race against the disconnect handler) cannot resolve
    anything: the result callback and [onReady] throw their fatal
    "nobody listening" errors, [onError] throws its argument, and each
    leaves the facade exactly as it found it.  The callbacks that resolve
    the pending wait [f] are the result callback, [onReady], the [onError]
    bound to [f] when it is given a non-empty error, the disconnect handler
    for an event that is not a forced reconnect, and [onConnected] for the
    connect wait. *)
Theorem duplicate_callbacks_are_rejected endpointUrl options handle ops f cb args :
  let s := after ops (booted endpointUrl options handle) in
  let s1 := (deliver cb args s).2 in
  currentFuture s = Some f ->
  cb = CbResult \/ cb = CbReady \/
  (cb = CbError f /\ truthy (arg 0 args) = true) \/
  (cb = CbDisconnect /\ isForcedReconnect (arg 0 args) = false) \/
  (cb = CbConnected /\ f = 0) ->
  currentFuture s1 = None /\
  resolved s1 f = true /\
  forall args' g,
    deliver CbResult args' s1 = (Throw (Error "nobody listening for result?"), s1) /\
    deliver CbReady args' s1 =
      (Throw (Error "nobody listening for subscribe result?"), s1) /\
    deliver (CbError g) args' s1 = (Throw (arg 0 args'), s1).
Proof.
  intros s s1 Hcur Hcb.
  pose proof (history_connectFuture endpointUrl options handle ops) as Hcf. fold s in Hcf.
  pose proof (history_current_pending endpointUrl options handle ops f Hcur) as Hp.
  fold s in Hp.
  assert (f < length (futures s)) as Hlt by (eapply lookup_lt_Some; eauto).
  assert (exists o t, o <> Pending /\ s1 = resolved_with f o t /\
                      futures t = futures s) as (o & t & Ho & Hs1 & Ht).
  { subst s1. destruct Hcb as [->|[->|[[-> He]|[[-> Hforced]|[-> ->]]]]]; cbn [deliver].
    - rewrite (onResult_pending s f _ _ Hcur Hp).
      destruct (truthy (arg 0 args)); eexists _, s;
        (split; [|split; reflexivity]); discriminate.
    - rewrite (onReady_pending s f Hcur Hp).
      eexists _, s; (split; [|split; reflexivity]); discriminate.
    - rewrite (onError_own s f _ Hcur Hp He).
      eexists _, s; (split; [|split; reflexivity]); discriminate.
    - rewrite (onDisconnect_pending s f _ Hforced Hcur Hp).
      eexists _, (with_connected (Some false) s);
        (split; [|split; reflexivity]); discriminate.
    - rewrite (onConnected_own s 0 Hcur Hcf Hp).
      eexists _, (with_connected (Some true) s);
        (split; [|split; reflexivity]); discriminate. }
  assert (currentFuture s1 = None) as Hidle by (by rewrite Hs1).
  split; [done|]. split.
  { rewrite Hs1. unfold resolved, resolved_with. simpl.
    rewrite list_lookup_insert_eq by (by rewrite Ht). by destruct o. }
  intros args' g. cbn [deliver].
  rewrite (onResult_idle s1 _ _ Hidle), (onReady_idle s1 Hidle).
  rewrite (onError_late s1 g _) by (by rewrite Hidle). done.
Qed.

Lemma duplicate_callbacks_are_rejected_witness :
  let s1 := (deliver CbDisconnect [] example_calling).2 in
  deliver CbResult [VNull; VNum 7] s1 =
    (Throw (Error "nobody listening for result?"), s1).
Proof.
  destruct (duplicate_callbacks_are_rejected
              "https://example.test" [("headers", VRecord [])] 1
              [Notify CbConnected []; Call [VStr "method"; VNum 1]] 1 CbDisconnect []
              eq_refl (or_intror (or_intror (or_intror (or_introl (conj eq_refl eq_refl))))))
    as (_ & _ & H).
  exact (proj1 (H [VNull; VNum 7] 0)).
Defined.

(** ** A method called on a closed facade *)

(** X8: a blocking method called on an idle facade after [close] installs
    its wait slot before it touches the connection, so the null handle
    makes it throw a TypeError with the slot left behind: no transport call
    is issued, nobody waits on the slot, and from then on [apply], [call]
    and [subscribeAndWait] are refused with the two-waits error.  Only a
    callback clears the slot again; a disconnect event does. *)
Theorem closed_facade_strands_a_wait s arguments sub :
  let c := (close s).2 in
  let f := length (futures s) in
  let t := (apply arguments c).2 in
  let u := (subscribeAndWait arguments sub c).2 in
  currentFuture s = None ->
  (apply arguments c).1 = Throw (TypeError "Cannot read property 'apply' of null") /\
  (subscribeAndWait arguments sub c).1 =
    Throw (TypeError "Cannot read property 'subscribe' of null") /\
  trace t = trace c ++ [NewFuture f] /\
  trace u = trace c ++ [NewFuture f] /\
  currentFuture t = Some f /\
  currentFuture u = Some f /\
  Future_wait f t = Blocked /\
  (forall a b,
     apply a t = (Throw fatal_two_waits, t) /\
     call a t = (Throw fatal_two_waits, t) /\
     subscribeAndWait a b t = (Throw fatal_two_waits, t)) /\
  currentFuture (deliver CbDisconnect [] t).2 = None.
Proof.
  intros c f t u Hcur.
  assert (connection c = None /\ currentFuture c = None /\ futures c = futures s)
    as (Hconn & Hcur' & Hfut).
  { subst c. unfold close. run. destruct (connection s) eqn:E; simpl; by rewrite ?E. }
  assert (apply arguments c =
            (Throw (TypeError "Cannot read property 'apply' of null"),
             with_currentFuture (Some f)
               (with_trace (trace c ++ [NewFuture f])
                  (with_futures (futures c ++ [Pending]) c)))) as Ha.
  { unfold apply. run. rewrite Hcur', Hconn. subst f. by rewrite Hfut. }
  assert (subscribeAndWait arguments sub c =
            (Throw (TypeError "Cannot read property 'subscribe' of null"),
             with_currentFuture (Some f)
               (with_trace (trace c ++ [NewFuture f])
                  (with_futures (futures c ++ [Pending]) c)))) as Hs.
  { unfold subscribeAndWait. run. rewrite Hcur', Hconn. subst f. by rewrite Hfut. }
  subst t u. rewrite Ha, Hs. cbn [fst snd].
  do 6 (split; [done|]).
  assert ((futures c ++ [Pending]) !! f = Some Pending) as Hp.
  { rewrite lookup_app_r by (subst f; rewrite Hfut; lia).
    subst f. by rewrite Hfut, Nat.sub_diag. }
  split; [unfold Future_wait; simpl; by rewrite Hp|].
  split.
  { intros a b. unfold call, apply, subscribeAndWait. by run. }
  cbn [deliver]. rewrite (onDisconnect_pending _ f (arg 0 [])); done.
Qed.

Lemma closed_facade_strands_a_wait_witness :
  let t := (apply [VStr "method"; VArr []] (close example_idle).2).2 in
  currentFuture t = Some 1 /\
  apply [VStr "method"; VArr []] t = (Throw fatal_two_waits, t).
Proof.
  destruct (closed_facade_strands_a_wait example_idle [VStr "method"; VArr []] VNull eq_refl)
    as (_ & _ & _ & _ & Hcur & _ & _ & Hm & _).
  split; [exact Hcur|]. exact (proj1 (Hm [VStr "method"; VArr []] VNull)).
Defined.

(** ** Slots are new *)

(** The slot of a call is not bound to any [onError]: while it is
    unresolved it is the pending wait. *)
Lemma parked_call_is_current endpointUrl options handle ops h arguments later :
  let s := after ops (booted endpointUrl options handle) in
  let f := length (futures s) in
  let s2 := after later (apply arguments s).2 in
  currentFuture s = None ->
  connection s = Some h ->
  pending s2 f = true ->
  currentFuture s2 = Some f.
Proof.
  intros s f s2 Hcur Hconn Hp.
  pose proof (history_wait_invariant endpointUrl options handle ops) as Is. fold s in Is.
  assert (wait_invariant s2) as I.
  { assert (s2 = after (ops ++ [Apply arguments] ++ later)
                   (booted endpointUrl options handle)) as ->
      by (by rewrite !after_app).
    apply history_wait_invariant. }
  assert (handed s2 (CbError f) = false) as Hnh.
  { subst s2. apply after_not_handed.
    - change ((apply arguments s).2) with (perform (Apply arguments) s).
      eapply transition_wait_invariant; [|exact Is].
      apply perform_transition, Is.
    - rewrite (apply_idle s h arguments Hcur Hconn). simpl.
      rewrite length_app. simpl. lia.
    - rewrite (apply_idle s h arguments Hcur Hconn).
      rewrite (handed_app s _ _
                 [NewFuture f;
                  Transport (connection_apply (arguments ++ [VFun CbResult]))])
        by done.
      simpl. rewrite orb_false_r.
      destruct (handed s (CbError f)) eqn:E; [|done].
      destruct Is as (_ & _ & Hrange & _). specialize (Hrange f E). subst f. lia. }
  destruct (proj1 (proj2 I) f Hp) as [Hc|Hh]; [done|congruence].
Qed.

(** X9: the slot on which [apply] parks is a new future, different from
    every future created before.  So the [onError] of any earlier
    subscription, which is bound to that subscription's own slot, cannot
    fail the call in flight: it throws its error and leaves the facade and
    the blocked caller as they were. *)
Theorem late_subscription_error_spares_the_call
    endpointUrl options handle ops h arguments later g e :
  let s := after ops (booted endpointUrl options handle) in
  let f := length (futures s) in
  let s2 := after later (apply arguments s).2 in
  currentFuture s = None ->
  connection s = Some h ->
  g < length (futures s) ->
  pending s2 f = true ->
  (apply arguments s).1 = Ok f /\
  g <> f /\
  deliver (CbError g) [e] s2 = (Throw e, s2) /\
  Future_wait f (deliver (CbError g) [e] s2).2 = Blocked.
Proof.
  intros s f s2 Hcur Hconn Hg Hp.
  pose proof (parked_call_is_current endpointUrl options handle ops h arguments later
                Hcur Hconn Hp) as Hc.
  fold s f s2 in Hc.
  assert (g <> f) as Hne by (subst f; lia).
  assert (deliver (CbError g) [e] s2 = (Throw e, s2)) as Hd.
  { cbn [deliver]. apply onError_late. rewrite Hc. congruence. }
  split; [by rewrite (apply_idle s h arguments Hcur Hconn)|].
  split; [done|]. split; [done|].
  rewrite Hd. by apply wait_pending.
Qed.

Lemma late_subscription_error_spares_the_call_witness :
  let s := after [Notify CbReady []] example_subscribing in
  let s2 := (apply [VStr "method"; VArr []] s).2 in
  deliver (CbError 1) [access_denied] s2 = (Throw access_denied, s2) /\
  Future_wait 2 s2 = Blocked.
Proof.
  destruct (late_subscription_error_spares_the_call
              "https://example.test" [("headers", VRecord [])] 1
              [Notify CbConnected [];
               SubscribeAndWait [VStr "publication"] (VObj 2);
               Notify CbReady []]
              1 [VStr "method"; VArr []] [] 1 access_denied
              eq_refl eq_refl ltac:(vm_compute; lia) eq_refl)
    as (_ & _ & Hd & Hw).
  vm_compute in Hd, Hw. vm_compute. split; [exact Hd | exact Hw].
Defined.

(** ** Calls made one after the other *)

Lemma answered_call_step s h a r :
  currentFuture s = None -> connection s = Some h ->
  after [Apply a; Notify CbResult [VNull; r]] s =
    resolved_with (length (futures s)) (Returned r) (apply a s).2.
Proof.
  intros Hcur Hconn. cbn [after foldl perform deliver].
  rewrite (apply_idle s h a Hcur Hconn). cbn [fst snd].
  change (arg 0 [VNull; r]) with VNull. change (arg 1 [VNull; r]) with r.
  erewrite onResult_pending; [done|done|].
  simpl. rewrite lookup_app_r by done. by rewrite Nat.sub_diag.
Qed.

(** X10: the facade can be used again after each answer.  When a fiber
    makes any number of calls one after the other on an idle facade with an
    open connection, and the transport answers each before the next is
    made, no call is refused: the facade ends idle with the connection
    still open, one future was created per call, and the [i]-th call
    returned the [i]-th result. *)
Theorem answered_calls_return_their_results calls s h :
  let s' := after (answered_calls calls) s in
  currentFuture s = None ->
  connection s = Some h ->
  currentFuture s' = None /\
  connection s' = Some h /\
  length (futures s') = length (futures s) + length calls /\
  (forall i c, calls !! i = Some c ->
     Future_wait (length (futures s) + i) s' = Returns c.2).
Proof.
  revert s. induction calls as [|[a r] calls IH]; intros s s' Hcur Hconn.
  { subst s'. simpl. repeat split; try done; try lia. }
  set (s1 := after [Apply a; Notify CbResult [VNull; r]] s).
  assert (s' = after (answered_calls calls) s1) as Hs'
    by (subst s' s1; unfold answered_calls; simpl; done).
  assert (s1 = resolved_with (length (futures s)) (Returned r) (apply a s).2) as Hs1
    by (by apply (answered_call_step s h)).
  rewrite (apply_idle s h a Hcur Hconn) in Hs1. cbn [fst snd] in Hs1.
  assert (currentFuture s1 = None) as Hcur1 by (by rewrite Hs1).
  assert (connection s1 = Some h) as Hconn1 by (by rewrite Hs1).
  assert (length (futures s1) = S (length (futures s))) as Hlen1.
  { rewrite Hs1. unfold resolved_with. simpl.
    rewrite length_insert, length_app. simpl. lia. }
  assert (futures s1 !! length (futures s) = Some (Returned r)) as Hr.
  { rewrite Hs1. unfold resolved_with. simpl.
    apply list_lookup_insert_eq. rewrite length_app. simpl. lia. }
  destruct (IH s1 Hcur1 Hconn1) as (Hc & Hn & Hl & Hw). rewrite <- Hs' in *.
  split; [done|]. split; [done|].
  split; [rewrite Hl, Hlen1; simpl; lia|].
  intros i c Hi. destruct i as [|i]; simpl in Hi.
  - injection Hi as <-. rewrite Nat.add_0_r. rewrite Hs'.
    unfold Future_wait. by rewrite (after_holds _ (Returned r) _ s1).
  - replace (length (futures s) + S i) with (length (futures s1) + i) by lia.
    by apply Hw.
Qed.

Lemma answered_calls_return_their_results_witness :
  Future_wait 2
    (after (answered_calls [([VStr "first"; VArr []], VNum 1);
                            ([VStr "second"; VArr []], VNum 2);
                            ([VStr "third"; VArr []], VNum 3)]) example_idle)
  = Returns (VNum 2).
Proof.
  destruct (answered_calls_return_their_results
              [([VStr "first"; VArr []], VNum 1);
               ([VStr "second"; VArr []], VNum 2);
               ([VStr "third"; VArr []], VNum 3)] example_idle 1 eq_refl eq_refl)
    as (_ & _ & _ & Hw).
  specialize (Hw 1 ([VStr "second"; VArr []], VNum 2) eq_refl).
  vm_compute in Hw. vm_compute. exact Hw.
Defined.

(** ** No wait is resolved twice *)

(** X12: in every history each future has been resolved at most once, and
    the trace and the heap agree on which ones; and no callback, whatever
    the transport passes to it and however often, runs into the Future
    library's "resolved more than once" error (unless that very error is
    what the transport passed in for re-raising). *)
Theorem no_wait_is_resolved_twice endpointUrl options handle ops :
  let s := after ops (booted endpointUrl options handle) in
  (forall f, resolutions f (trace s) <= 1 /\
             (resolutions f (trace s) = 1 <-> resolved s f = true)) /\
  (forall cb args, arg 0 args <> resolved_twice ->
                   (deliver cb args s).1 <> Throw resolved_twice).
Proof.
  intros s.
  assert (forall f, currentFuture s = Some f -> futures s !! f = Some Pending) as Hcip
    by (intros f; apply history_current_pending).
  pose proof (history_connectFuture endpointUrl options handle ops) as Hcf. fold s in Hcf.
  split.
  { intros f. pose proof (history_once endpointUrl options handle ops f) as O.
    fold s in O. rewrite O. destruct (resolved s f); split; try lia; done. }
  intros cb args Harg.
  destruct (currentFuture s) as [f|] eqn:Hcur.
  - pose proof (Hcip f eq_refl) as Hp.
    destruct cb; cbn [deliver].
    + destruct (decide (f = 0)) as [->|Hne].
      * by rewrite (onConnected_own s 0 Hcur Hcf Hp).
      * rewrite (onConnected_other s f Hcur) by congruence. done.
    + destruct (isForcedReconnect (arg 0 args)) eqn:Hforced.
      * rewrite (onDisconnect_forced s 0 _ Hforced Hcf). by destruct (resolved s 0).
      * by rewrite (onDisconnect_pending s f _ Hforced Hcur Hp).
    + by rewrite (onResult_pending s f _ _ Hcur Hp).
    + by rewrite (onReady_pending s f Hcur Hp).
    + destruct (decide (subFuture = f)) as [->|Hne].
      * destruct (truthy (arg 0 args)) eqn:He.
        -- rewrite (onError_own s f _ Hcur Hp He). simpl. congruence.
        -- by rewrite (onError_own_empty s f _ Hcur Hp He).
      * rewrite (onError_late s subFuture) by congruence. simpl. congruence.
  - destruct cb; cbn [deliver].
    + by rewrite (onConnected_idle s Hcur).
    + destruct (isForcedReconnect (arg 0 args)) eqn:Hforced.
      * rewrite (onDisconnect_forced s 0 _ Hforced Hcf). by destruct (resolved s 0).
      * rewrite (onDisconnect_idle s _ Hforced Hcur).
        destruct (truthy (arg 0 args)); simpl; congruence.
    + by rewrite (onResult_idle s _ _ Hcur).
    + by rewrite (onReady_idle s Hcur).
    + rewrite (onError_late s subFuture) by congruence. simpl. congruence.
Qed.

Lemma no_wait_is_resolved_twice_witness :
  (deliver CbResult [VNull; VNum 7]
     (after [Notify CbResult [VNull; VNum 7]] example_calling)).1
  <> Throw resolved_twice.
Proof.
  apply (proj2 (no_wait_is_resolved_twice
                  "https://example.test" [("headers", VRecord [])] 1
                  [Notify CbConnected []; Call [VStr "method"; VNum 1];
                   Notify CbResult [VNull; VNum 7]])).
  discriminate.
Defined.

(** ** A result that arrives after a disconnect *)

(** X13: the result callback does not know which call it answers.  When a
    call is failed by a disconnect, the caller makes another call, and the
    answer to the first call arrives only then, the first caller has
    raised the connection error and the answer is returned to the second
    call. *)
Theorem late_result_goes_to_the_pending_call s h a1 a2 error r :
  let f1 := length (futures s) in
  let f2 := S (length (futures s)) in
  let failure := if truthy error then error else Error "DDP disconnected" in
  let s' := after [Apply a1; Notify CbDisconnect [error];
                   Apply a2; Notify CbResult [VNull; r]] s in
  currentFuture s = None ->
  connection s = Some h ->
  isForcedReconnect error = false ->
  Future_wait f1 s' = Raises failure /\
  Future_wait f2 s' = Returns r /\
  currentFuture s' = None.
Proof.
  intros f1 f2 failure s' Hcur Hconn Hforced.
  set (s2 := after [Apply a1; Notify CbDisconnect [error]] s).
  assert (s' = after [Apply a2; Notify CbResult [VNull; r]] s2) as Hs' by done.
  assert (s2 = resolved_with f1 (Thrown failure)
                 (with_connected (Some false) (apply a1 s).2)) as Hs2.
  { subst s2. cbn [after foldl perform deliver]. change (arg 0 [error]) with error.
    rewrite (apply_idle s h a1 Hcur Hconn). cbn [fst snd].
    erewrite onDisconnect_pending; [done|done|done|].
    simpl. rewrite lookup_app_r by done. by rewrite Nat.sub_diag. }
  rewrite (apply_idle s h a1 Hcur Hconn) in Hs2. cbn [fst snd] in Hs2.
  assert (currentFuture s2 = None) as Hcur2 by (by rewrite Hs2).
  assert (connection s2 = Some h) as Hconn2 by (by rewrite Hs2).
  assert (length (futures s2) = f2) as Hlen2.
  { rewrite Hs2. unfold resolved_with. simpl.
    rewrite length_insert, length_app. simpl. subst f2. lia. }
  assert (futures s2 !! f1 = Some (Thrown failure)) as Hf1.
  { rewrite Hs2. unfold resolved_with. simpl.
    apply list_lookup_insert_eq. rewrite length_app. simpl. subst f1. lia. }
  rewrite Hs', (answered_call_step s2 h a2 r Hcur2 Hconn2), Hlen2.
  split; [|split].
  - rewrite <- Hlen2, <- (answered_call_step s2 h a2 r Hcur2 Hconn2).
    unfold Future_wait. by rewrite (after_holds f1 (Thrown failure) _ s2).
  - apply wait_resolved_with.
    rewrite (apply_idle s2 h a2 Hcur2 Hconn2). simpl.
    rewrite length_app, Hlen2. simpl. lia.
  - done.
Qed.

Lemma late_result_goes_to_the_pending_call_witness :
  Future_wait 2
    (after [Apply [VStr "first"; VArr []]; Notify CbDisconnect [];
            Apply [VStr "second"; VArr []]; Notify CbResult [VNull; VStr "answer to first"]]
       example_idle)
  = Returns (VStr "answer to first").
Proof.
  destruct (late_result_goes_to_the_pending_call example_idle 1
              [VStr "first"; VArr []] [VStr "second"; VArr []] VUndefined
              (VStr "answer to first") eq_refl eq_refl eq_refl)
    as (_ & Hw & _).
  vm_compute in Hw. vm_compute. exact Hw.
Defined.
